(** * SPY signals updater: a shallow embedding of [update_spy_signals.py]

    The program fetches a year of daily closes, computes a period-2 RSI and a
    200-day moving average with pandas, thresholds them into three 0/1
    signals and overwrites [spy_signals.json].

    Numbers.  The program computes on binary64 values.  They are modelled as
    exact rationals extended with the two infinities and NaN: every
    operation has its IEEE special cases (NaN propagation, [x / inf = 0],
    comparisons with NaN are false).  Addition, subtraction, multiplication
    and division are exact on finite operands, so their rounding error and
    the sign of zero are abstracted away.  [round], which produces the
    numbers that are stored, is not abstracted: [Float.fl] rounds a rational
    to the nearest binary64 value (ties to even, overflow to infinity) and
    [Float.round] is numpy's [rint(x * 100) / 100] with both of its
    operations rounded by [Float.fl].  Finite values are compared with
    [Qeq].

    Effects.  [run] is written in a reader, state and exception monad.  The
    reader holds what the outside answers during one run (the downloaded
    frame, the news feed, the clock, whether the file can be opened and
    whether the write fails); the state holds the output file and a log of
    the external actions, so that what a failed run has and has not done can
    be stated. *)

From Stdlib Require Import String Ascii.
From Stdlib Require Import QArith Qround Qabs Qminmax ZArith List Bool Lia Lqa.
Import ListNotations.

Open Scope Q_scope.

(** ** Extended rationals standing for binary64 values *)

Inductive float : Type :=
| Fin (q : Q)
| PInf
| NInf
| NaN.

Module Float.

Definition is_nan (x : float) : bool :=
  match x with NaN => true | _ => false end.

Definition is_finite (x : float) : bool :=
  match x with Fin _ => true | _ => false end.

Definition Qltb (a b : Q) : bool := negb (Qle_bool b a).

(** Sign of a finite value as an infinity: the result of [inf * a]. *)
Definition signed_inf (a : Q) (pos : bool) : float :=
  match a ?= 0 with
  | Eq => NaN
  | Gt => if pos then PInf else NInf
  | Lt => if pos then NInf else PInf
  end.

Definition neg (x : float) : float :=
  match x with
  | Fin q => Fin (- q)
  | PInf => NInf
  | NInf => PInf
  | NaN => NaN
  end.

Definition add (x y : float) : float :=
  match x, y with
  | NaN, _ | _, NaN => NaN
  | Fin a, Fin b => Fin (a + b)
  | PInf, NInf | NInf, PInf => NaN
  | PInf, _ | _, PInf => PInf
  | NInf, _ | _, NInf => NInf
  end.

Definition sub (x y : float) : float := add x (neg y).

Definition mul (x y : float) : float :=
  match x, y with
  | NaN, _ | _, NaN => NaN
  | Fin a, Fin b => Fin (a * b)
  | Fin a, PInf | PInf, Fin a => signed_inf a true
  | Fin a, NInf | NInf, Fin a => signed_inf a false
  | PInf, PInf | NInf, NInf => PInf
  | PInf, NInf | NInf, PInf => NInf
  end.

(** Division.  A finite value over an infinity is 0; a zero divisor gives
    an infinity of the sign of the dividend (the zero counts as [+0]) and
    [0 / 0] is NaN, as numpy does (with a warning, not an exception). *)
Definition div (x y : float) : float :=
  match x, y with
  | NaN, _ | _, NaN => NaN
  | Fin a, Fin b =>
      if Qeq_bool b 0 then signed_inf a true else Fin (a / b)
  | Fin _, PInf | Fin _, NInf => Fin 0
  | PInf, Fin b => if Qltb b 0 then NInf else PInf
  | NInf, Fin b => if Qltb b 0 then PInf else NInf
  | PInf, _ | NInf, _ => NaN
  end.

(** [x == y], [x != y] and [x < y]: false (true for [!=]) when either side
    is NaN. *)
Definition eqb (x y : float) : bool :=
  match x, y with
  | Fin a, Fin b => Qeq_bool a b
  | PInf, PInf | NInf, NInf => true
  | _, _ => false
  end.

Definition neb (x y : float) : bool := negb (eqb x y).

Definition ltb (x y : float) : bool :=
  match x, y with
  | NaN, _ | _, NaN => false
  | Fin a, Fin b => Qltb a b
  | PInf, _ | _, NInf => false
  | NInf, _ | Fin _, PInf => true
  end.

Definition gtb (x y : float) : bool := ltb y x.

(** Equality of the values two floats stand for: [Qeq] on finite ones. *)
Definition equiv (x y : float) : Prop :=
  match x, y with
  | Fin a, Fin b => a == b
  | PInf, PInf | NInf, NInf | NaN, NaN => True
  | _, _ => False
  end.

(** Round half to even to an integer: [numpy.rint]. *)
Definition rint (q : Q) : Z :=
  let f := Qfloor q in
  match ((q - inject_Z f) ?= (1 # 2))%Q with
  | Lt => f
  | Gt => (f + 1)%Z
  | Eq => if Z.even f then f else (f + 1)%Z
  end.

(** Rounding of a rational to binary64, to nearest with ties to even:
    53 significant bits, least exponent [-1074] (subnormal numbers), a
    result of [2^1024] or more becomes an infinity.  [ilog2 a] is the
    integer part of the base-2 logarithm of [a > 0]. *)
Definition pow2 (z : Z) : Q := Qpower 2 z.

Definition ilog2 (a : Q) : Z :=
  let e0 := (Z.log2 (Qnum a) - Z.log2 (Zpos (Qden a)))%Z in
  if Qle_bool (pow2 e0) a then e0 else (e0 - 1)%Z.

Definition fl_pos (a : Q) : float :=
  let e := ilog2 a in
  let E := Z.max (e - 52) (-1074) in
  let m := rint (a / pow2 E) in
  let v := Qred (inject_Z m * pow2 E) in
  if Qle_bool (pow2 1024) v then PInf else Fin v.

Definition fl (q : Q) : float :=
  let r := Qred q in
  match r ?= 0 with
  | Eq => Fin 0
  | Gt => fl_pos r
  | Lt => neg (fl_pos (- r))
  end.

(** [round(x, 2)] on a numpy float64 scalar: the product with [10**2]
    rounded to binary64, [rint] of it, and the quotient by [10**2] rounded
    to binary64; NaN and the infinities pass through, and a product that
    overflows gives an infinity. *)
Definition round (x : float) (decimals : nat) : float :=
  match x with
  | Fin q =>
      let scale := inject_Z (10 ^ Z.of_nat decimals) in
      match fl (q * scale) with
      | Fin y => fl (inject_Z (rint y) / scale)
      | other => other
      end
  | _ => x
  end.

End Float.

Infix "=f=" := Float.equiv (at level 70, no associativity).

(** ** The pandas operations used by the program

    A [Series] is the column of values in index order; every series the
    program combines shares the index of the closes, so element-wise
    operations pair values by position. *)

Definition Series := list float.

Module Series.

(** [s.diff()]: NaN at the first position, then [s[i] - s[i-1]]. *)
Fixpoint diff_from (prev : float) (s : Series) : Series :=
  match s with
  | [] => []
  | x :: rest => Float.sub x prev :: diff_from x rest
  end.

Definition diff (s : Series) : Series :=
  match s with
  | [] => []
  | x :: rest => NaN :: diff_from x rest
  end.

(** [s.clip(lower=lo)] and [s.clip(upper=hi)]: NaN stays NaN. *)
Definition clip_lower (lo : float) (s : Series) : Series :=
  map (fun x => if Float.ltb x lo then lo else x) s.

Definition clip_upper (hi : float) (s : Series) : Series :=
  map (fun x => if Float.gtb x hi then hi else x) s.

Definition neg (s : Series) : Series := map Float.neg s.

(** [s.replace(old, new)]: positions that compare equal to [old]. *)
Definition replace (old new : float) (s : Series) : Series :=
  map (fun x => if Float.eqb x old then new else x) s.

Fixpoint zip_with (f : float -> float -> float) (a b : Series) : Series :=
  match a, b with
  | x :: a', y :: b' => f x y :: zip_with f a' b'
  | _, _ => []
  end.

Definition div (a b : Series) : Series := zip_with Float.div a b.

(** *** [s.ewm(alpha=alpha, min_periods=minp, adjust=False).mean()]

    The loop of pandas' [ewm] aggregation with [adjust=False],
    [ignore_na=False] and unit time steps.  [weighted] is the running
    average, [old_wt] the weight it carries (it decays over NaN entries
    and is reset to 1 by an observation), [nobs] the number of non-NaN
    entries seen; an output is masked with NaN while [nobs < minp]. *)
Record ewm_acc : Type := EwmAcc
  { weighted : float; old_wt : Q; nobs : nat }.

Definition ewm_emit (minp : nat) (st : ewm_acc) : float :=
  if (minp <=? nobs st)%nat then weighted st else NaN.

Definition ewm_init (v0 : float) : ewm_acc :=
  {| weighted := v0; old_wt := 1;
     nobs := if Float.is_nan v0 then 0 else 1 |}.

(** The weight of a new observation: [alpha], except that for a centre of
    mass of 1 ([alpha = 1/2]) pandas takes [1 - old_wt], which differs from
    [alpha] after a gap of NaN entries. *)
Definition ewm_new_wt (alpha ow : Q) : Q :=
  if Qeq_bool ((1 - alpha) / alpha) 1 then 1 - ow else alpha.

Definition ewm_step (alpha : Q) (st : ewm_acc) (cur : float) : ewm_acc :=
  let is_observation := negb (Float.is_nan cur) in
  let n := if is_observation then S (nobs st) else nobs st in
  if Float.is_nan (weighted st) then
    {| weighted := if is_observation then cur else weighted st;
       old_wt := old_wt st; nobs := n |}
  else
    let ow := old_wt st * (1 - alpha) in
    if is_observation then
      {| weighted :=
           if Float.neb (weighted st) cur then
             Float.div
               (Float.add (Float.mul (Fin ow) (weighted st))
                          (Float.mul (Fin (ewm_new_wt alpha ow)) cur))
               (Fin (ow + ewm_new_wt alpha ow))
           else weighted st;
         old_wt := 1; nobs := n |}
    else
      {| weighted := weighted st; old_wt := ow; nobs := n |}.

Fixpoint ewm_loop (alpha : Q) (minp : nat) (st : ewm_acc) (vals : Series)
  : Series :=
  match vals with
  | [] => []
  | cur :: rest =>
      let st' := ewm_step alpha st cur in
      ewm_emit minp st' :: ewm_loop alpha minp st' rest
  end.

(** Infinite entries are turned into NaN before the loop. *)
Definition inf_to_nan (x : float) : float :=
  match x with
  | PInf | NInf => NaN
  | _ => x
  end.

Definition ewm_mean (alpha : Q) (min_periods : nat) (vals : Series) : Series :=
  let minp := Nat.max min_periods 1 in
  match map inf_to_nan vals with
  | [] => []
  | v0 :: rest =>
      let st0 := ewm_init v0 in
      ewm_emit minp st0 :: ewm_loop alpha minp st0 rest
  end.

(** *** [s.rolling(window).mean()]

    [min_periods] defaults to the window length.  Infinite entries are
    turned into NaN first and NaN entries are not observations; a window
    with fewer than [min_periods] observations gives NaN, otherwise the
    sum of the observations over their number. *)
Definition last_n (n : nat) (s : Series) : Series :=
  skipn (length s - n) s.

Definition window_mean (min_periods : nat) (win : Series) : float :=
  let obs := filter Float.is_finite win in
  let n := length obs in
  if ((min_periods <=? n) && (0 <? n))%nat then
    Float.div (fold_left Float.add obs (Fin 0)) (Fin (inject_Z (Z.of_nat n)))
  else NaN.

Definition rolling_mean (window : nat) (s : Series) : Series :=
  map (fun i => window_mean window (last_n window (firstn (S i) s)))
      (seq 0 (length s)).

(** [s.iloc[i]]: positions from the end for negative [i]; [None] stands
    for the [IndexError] of a position out of bounds. *)
Definition iloc (s : Series) (i : Z) : option float :=
  let n := Z.of_nat (length s) in
  let j := if (i <? 0)%Z then (n + i)%Z else i in
  if ((j <? 0) || (n <=? j))%Z then None else nth_error s (Z.to_nat j).

End Series.

(** ** Exceptions and results *)

Inductive exn : Type :=
| ZeroDivisionError
| ValueError_alpha                     (* pandas: alpha must satisfy 0 < alpha <= 1 *)
| ValueError_not_enough_data (rows : nat)
| IndexError
| DownloadError                        (* whatever [yf.download] raised *)
| NewsError                            (* whatever [Ticker.news] raised *)
| AttributeError                       (* [.get] on a value that is no dict *)
| OSError_open                         (* [open(out, "w")] failed *)
| DumpError.                           (* [json.dump] raised while writing *)

Inductive result (A : Type) : Type :=
| Ok (a : A)
| Raise (e : exn).

Arguments Ok {A} a.
Arguments Raise {A} e.

(** ** [calc_rsi]

    The local variables of the function, each as a function of its
    arguments. *)

Definition delta (series : Series) : Series := Series.diff series.

Definition gain (series : Series) : Series :=
  Series.clip_lower (Fin 0) (delta series).

Definition loss (series : Series) : Series :=
  Series.neg (Series.clip_upper (Fin 0) (delta series)).

(** [alpha = 1 / period] and [min_periods = period], for [period >= 1]. *)
Definition avg_gain (series : Series) (period : Z) : Series :=
  Series.ewm_mean (1 / inject_Z period) (Z.to_nat period) (gain series).

Definition avg_loss (series : Series) (period : Z) : Series :=
  Series.ewm_mean (1 / inject_Z period) (Z.to_nat period) (loss series).

Definition rs (series : Series) (period : Z) : Series :=
  Series.div (avg_gain series period)
             (Series.replace (Fin 0) PInf (avg_loss series period)).

(** [100 - (100 / (1 + rs))], element by element. *)
Definition rsi_of_rs (r : float) : float :=
  Float.sub (Fin 100) (Float.div (Fin 100) (Float.add (Fin 1) r)).

(** [1 / period] raises for [period = 0]; pandas refuses an [alpha]
    outside [(0, 1]], which a negative [period] gives. *)
Definition calc_rsi (series : Series) (period : Z) : result Series :=
  if (period =? 0)%Z then Raise ZeroDivisionError
  else if (period <? 0)%Z then Raise ValueError_alpha
  else Ok (map rsi_of_rs (rs series period)).

(** ** The snapshot record *)

Record metrics : Type := Metrics
  { last_close : float; rsi2 : float; sma200 : float; news : string }.

Record payload : Type := Payload
  { ticker : string;
    rsi_2_below_30 : Z;
    three_lower_closes : Z;
    above_sma200 : Z;
    metrics_of : metrics;
    updated_at : string }.

(** ** The outside world

    What the collaborators answer during one run is fixed by an [env]; what
    the run changes is a [world]: the output file and the log of the
    external actions performed, oldest first. *)

(** The value of [yf.Ticker("SPY").news]: a list of items, each usually a
    dict whose ["content"] entry is a dict with a ["title"]. *)
Inductive content_value : Type :=
| ContentDict (title : option string)
| ContentOther.                        (* not a dict: [.get] raises *)

Inductive news_item : Type :=
| ItemDict (content : option content_value)
| ItemOther.                           (* not a dict: [.get] raises *)

Inductive news_feed : Type :=
| NewsRaises                           (* the property raises an Exception *)
| NewsValue (items : list news_item).  (* [None] counts as the empty list *)

(** The answer of [yf.download]: the ["Close"] column of the frame, one
    value per row (the other columns are not used). *)
Inductive download_outcome : Type :=
| DownloadRaises
| Frame (close_column : Series).

(** The output file.  The JSON text is not modelled: a file is identified
    by the payload whose text [json.dump] wrote and by how much of that
    text reached the file. *)
Inductive file_content : Type :=
| Truncated                            (* emptied by [open(out, "w")] *)
| Partial (p : payload) (chars : nat)  (* the first [chars] characters *)
| Snapshot (p : payload).              (* the whole text *)

Inductive event : Type :=
| EvDownload
| EvNews
| EvClock
| EvOpen
| EvWrite
| EvPrint.

Record env : Type := Env
  { feed : download_outcome;
    headlines : news_feed;
    clock : string;                    (* the formatted UTC time *)
    open_ok : bool;                    (* [open(out, "w")] succeeds *)
    dump_fault : option nat }.         (* [json.dump] raises after n chars *)

Record world : Type := World
  { disk : option file_content;        (* [None]: no file at [out] *)
    log : list event }.

(** ** A reader, state and exception monad for [run] *)

Definition M (A : Type) : Type := env -> world -> result A * world.

Definition ret {A} (a : A) : M A := fun _ w => (Ok a, w).

Definition raise {A} (e : exn) : M A := fun _ w => (Raise e, w).

Definition bind {A B} (m : M A) (k : A -> M B) : M B :=
  fun e w =>
    match m e w with
    | (Ok a, w') => k a e w'
    | (Raise x, w') => (Raise x, w')
    end.

Notation "x <- m ;; k" := (bind m (fun x => k))
  (at level 61, m at next level, right associativity).
Notation "m ;;; k" := (bind m (fun _ => k))
  (at level 61, right associativity).

Definition lift {A} (r : result A) : M A := fun _ w => (r, w).

Definition emit (ev : event) : M unit :=
  fun _ w => (Ok tt, {| disk := disk w; log := log w ++ [ev] |}).

(** [try: m except Exception: h] *)
Definition try_except {A} (m : M A) (h : M A) : M A :=
  fun e w =>
    match m e w with
    | (Ok a, w') => (Ok a, w')
    | (Raise _, w') => h e w'
    end.

Definition index (s : Series) (i : Z) : M float :=
  match Series.iloc s i with
  | Some x => ret x
  | None => raise IndexError
  end.

(** *** The external calls *)

Definition yf_download : M Series :=
  emit EvDownload ;;;
  fun e w =>
    match feed e with
    | DownloadRaises => (Raise DownloadError, w)
    | Frame col => (Ok col, w)
    end.

Definition yf_ticker_news : M (list news_item) :=
  emit EvNews ;;;
  fun e w =>
    match headlines e with
    | NewsRaises => (Raise NewsError, w)
    | NewsValue items => (Ok items, w)
    end.

Definition utc_now : M string :=
  emit EvClock ;;; fun e w => (Ok (clock e), w).

(** [open(out, "w")]: on success the file exists and is empty from then on. *)
Definition open_w : M unit :=
  emit EvOpen ;;;
  fun e w =>
    if open_ok e then (Ok tt, {| disk := Some Truncated; log := log w |})
    else (Raise OSError_open, w).

(** [json.dump(payload, f, indent=4)] followed by the close of [f] at the
    end of the [with] block, which also runs when [json.dump] raised. *)
Definition json_dump (p : payload) : M unit :=
  emit EvWrite ;;;
  fun e w =>
    match dump_fault e with
    | Some n => (Raise DumpError, {| disk := Some (Partial p n); log := log w |})
    | None => (Ok tt, {| disk := Some (Snapshot p); log := log w |})
    end.

Definition print : M unit := emit EvPrint.

(** ** [fetch_spy_news] *)

Definition dict_get_title (item : news_item) : M string :=
  match item with
  | ItemOther => raise AttributeError
  | ItemDict None => ret EmptyString
  | ItemDict (Some ContentOther) => raise AttributeError
  | ItemDict (Some (ContentDict None)) => ret EmptyString
  | ItemDict (Some (ContentDict (Some t))) => ret t
  end.

Definition fetch_spy_news : M string :=
  try_except
    (news <- yf_ticker_news ;;
     match news with
     | item :: _ => dict_get_title item
     | [] => ret EmptyString
     end)
    (ret EmptyString).

(** ** [run] *)

Definition bit (b : bool) : Z := if b then 1%Z else 0%Z.

(** Line 53: [1 if (close.iloc[-1] < close.iloc[-2] < close.iloc[-3]) else 0].
    The chained comparison reads [close.iloc[-3]] only when the first
    comparison holds. *)
Definition three_lower (close : Series) : M Z :=
  a <- index close (-1) ;;
  b <- index close (-2) ;;
  if Float.ltb a b then
    c <- index close (-3) ;;
    ret (bit (Float.ltb b c))
  else ret 0%Z.

Definition run : M unit :=
  df <- yf_download ;;
  if (match df with [] => true | _ => false end
      || (length df <? 210)%nat)%bool
  then raise (ValueError_not_enough_data (length df))
  else
    let close := df in
    rsi2 <- lift (calc_rsi close 2) ;;
    let sma200 := Series.rolling_mean 200 close in
    c_last <- index close (-1) ;;
    let last_close := Float.round c_last 2 in
    r_last <- index rsi2 (-1) ;;
    let last_rsi2 := Float.round r_last 2 in
    s_last <- index sma200 (-1) ;;
    let last_sma200 := Float.round s_last 2 in
    let rsi2_below_30 := bit (Float.ltb last_rsi2 (Fin 30)) in
    three_lower <- three_lower close ;;
    let above_sma200 := bit (Float.gtb last_close last_sma200) in
    headline <- fetch_spy_news ;;
    now <- utc_now ;;
    let payload :=
      {| ticker := "SPY";
         rsi_2_below_30 := rsi2_below_30;
         three_lower_closes := three_lower;
         above_sma200 := above_sma200;
         metrics_of :=
           {| last_close := last_close;
              rsi2 := last_rsi2;
              sma200 := last_sma200;
              news := headline |};
         updated_at := now |} in
    open_w ;;;
    json_dump payload ;;;
    print ;;; print ;;; print ;;; print ;;; print.

(** ** Price series and the quantities the specification names

    A price series is a sequence of closing prices: finite numbers
    ([yf.download] drops the rows that carry no data).  The definitions of
    [Spec] follow the words of the specification, to be compared with what
    the program computes. *)

Definition prices (l : list Q) : Series := map Fin l.

Module Spec.

(** [diff[i] = price[i] - price[i-1]] for [i >= 1]. *)
Fixpoint diffs_from (prev : Q) (ps : list Q) : list Q :=
  match ps with
  | [] => []
  | p :: rest => (p - prev) :: diffs_from p rest
  end.

Definition diffs (ps : list Q) : list Q :=
  match ps with
  | [] => []
  | p :: rest => diffs_from p rest
  end.

(** [gain[i] = max(diff[i], 0)] and [loss[i] = max(-diff[i], 0)]. *)
Definition gain_of (d : Q) : Q := if Qle_bool 0 d then d else 0.

Definition loss_of (d : Q) : Q := if Qle_bool 0 (- d) then - d else 0.

(** Pure recursive exponential smoothing: the first value is the first
    observation, then [avg[i] = (1 - alpha) * avg[i-1] + alpha * x[i]]. *)
Fixpoint smooth_from (alpha prev : Q) (xs : list Q) : list Q :=
  match xs with
  | [] => []
  | x :: rest =>
      let avg := (1 - alpha) * prev + alpha * x in
      avg :: smooth_from alpha avg rest
  end.

Definition smooth (alpha : Q) (xs : list Q) : list Q :=
  match xs with
  | [] => []
  | x :: rest => x :: smooth_from alpha x rest
  end.

(** A series whose first [k] outputs are undefined. *)
Fixpoint undefined_first (k : nat) (l : list Q) : Series :=
  match l with
  | [] => []
  | q :: rest =>
      match k with
      | O => Fin q :: undefined_first O rest
      | S k' => NaN :: undefined_first k' rest
      end
  end.

(** The smoothed average of period [P] over the differences, laid out on
    the index of the prices: nothing at the first price, which has no
    difference, and the first [P - 1] outputs undefined. *)
Definition smoothed_average (P : Z) (part : Q -> Q) (ps : list Q) : Series :=
  match ps with
  | [] => []
  | _ :: _ =>
      NaN :: undefined_first (Z.to_nat P - 1)
               (smooth (1 / inject_Z P) (map part (diffs ps)))
  end.

Definition sum (l : list Q) : Q := fold_right Qplus 0 l.

(** Arithmetic mean of the trailing [n] prices. *)
Definition trailing_mean (n : nat) (ps : list Q) : Q :=
  sum (skipn (length ps - n) ps) / inject_Z (Z.of_nat n).

(** [x] rounded to 2 decimal places as a decimal number: to the nearest
    hundredth, a value halfway between two hundredths going to the even one
    (half to even) or to the upper one (half up). *)
Definition half_even_2dp (x : Q) : Q := inject_Z (Float.rint (x * 100)) / 100.

Definition half_up_2dp (x : Q) : Q :=
  inject_Z (Qfloor (x * 100 + (1 # 2))) / 100.

(** A stored value with 2 decimal places: the binary64 number nearest to a
    whole number of hundredths (or NaN or an infinity). *)
Definition two_decimals (v : float) : Prop :=
  v = NaN \/ v = PInf \/ v = NInf \/
  exists k : Z, v = Float.fl (inject_Z k / 100).

End Spec.

(** ** Closed forms used in the statements

    [from_end s k] is the value [s.iloc[-k]] reads; [headline_of] the value
    [fetch_spy_news] returns; [snapshot_of] the payload [run] builds from
    the column of closes, the headline and the time. *)

Definition from_end (s : Series) (k : nat) : float :=
  nth (length s - k) s NaN.

Definition headline_of (f : news_feed) : string :=
  match f with
  | NewsValue (ItemDict (Some (ContentDict (Some t))) :: _) => t
  | _ => EmptyString
  end.

Definition rsi_series (close : Series) : Series := map rsi_of_rs (rs close 2).

Definition snapshot_of (close : Series) (headline now : string) : payload :=
  let last_close := Float.round (from_end close 1) 2 in
  let last_rsi2 := Float.round (from_end (rsi_series close) 1) 2 in
  let last_sma200 :=
    Float.round (from_end (Series.rolling_mean 200 close) 1) 2 in
  {| ticker := "SPY";
     rsi_2_below_30 := bit (Float.ltb last_rsi2 (Fin 30));
     three_lower_closes :=
       bit (Float.ltb (from_end close 1) (from_end close 2)
            && Float.ltb (from_end close 2) (from_end close 3));
     above_sma200 := bit (Float.gtb last_close last_sma200);
     metrics_of :=
       {| last_close := last_close;
          rsi2 := last_rsi2;
          sma200 := last_sma200;
          news := headline |};
     updated_at := now |}.

(** The steps of [run] from [open] on. *)
Definition persist (p : payload) : M unit :=
  open_w ;;; json_dump p ;;; print ;;; print ;;; print ;;; print ;;; print.

Definition logged (w : world) (evs : list event) : world :=
  {| disk := disk w; log := log w ++ evs |}.

(** The finite core of the exponential smoothing loop: one step of
    [Series.ewm_step] on finite values carrying weight 1, and the outputs
    of the loop with their mask. *)
Definition ewm_q_step (alpha w x : Q) : Q :=
  if negb (Qeq_bool w x) then
    (1 * (1 - alpha) * w + Series.ewm_new_wt alpha (1 * (1 - alpha)) * x)
    / (1 * (1 - alpha) + Series.ewm_new_wt alpha (1 * (1 - alpha)))
  else w.

Fixpoint ewm_q_loop (alpha w : Q) (xs : list Q) : list Q :=
  match xs with
  | [] => []
  | x :: rest =>
      let w' := ewm_q_step alpha w x in
      w' :: ewm_q_loop alpha w' rest
  end.

Definition ewm_q (alpha : Q) (xs : list Q) : list Q :=
  match xs with
  | [] => []
  | x :: rest => x :: ewm_q_loop alpha x rest
  end.

Fixpoint masked (minp n : nat) (l : list Q) : Series :=
  match l with
  | [] => []
  | q :: rest =>
      (if (minp <=? S n)%nat then Fin q else NaN) :: masked minp (S n) rest
  end.

(** The gain and the loss the program derives from one finite difference. *)
Definition gain_q (d : Q) : Q := if Float.Qltb d 0 then 0 else d.

Definition loss_q (d : Q) : Q := if Float.Qltb 0 d then - 0 else - d.

(** The RSI at one position from the two smoothed averages there. *)
Definition rsi_point (g l : float) : float :=
  rsi_of_rs (Float.div g (if Float.eqb l (Fin 0) then PInf else l)).

(** Record updates. *)
Definition with_headlines (e : env) (f : news_feed) : env :=
  {| feed := feed e; headlines := f; clock := clock e;
     open_ok := open_ok e; dump_fault := dump_fault e |}.

(** ** Sample inputs *)

Definition sample_time : string := "2024-01-02T21:00:00Z".

Definition headline_item (t : string) : news_item :=
  ItemDict (Some (ContentDict (Some t))).

(** A run where every collaborator answers and the write goes through. *)
Definition env_of (ps : list Q) : env :=
  {| feed := Frame (prices ps);
     headlines := NewsValue [headline_item "Stocks close higher"];
     clock := sample_time; open_ok := true; dump_fault := None |}.

(** The same run, [json.dump] raising after [n] characters. *)
Definition env_dump_fails (ps : list Q) (n : nat) : env :=
  {| feed := Frame (prices ps);
     headlines := NewsValue [headline_item "Stocks close higher"];
     clock := sample_time; open_ok := true; dump_fault := Some n |}.

Definition no_file : world := {| disk := None; log := [] |}.

Definition old_snapshot : payload :=
  {| ticker := "SPY"; rsi_2_below_30 := 0; three_lower_closes := 0;
     above_sma200 := 1;
     metrics_of := {| last_close := Fin 470.5; rsi2 := Fin 55.25;
                      sma200 := Fin 440; news := EmptyString |};
     updated_at := "2024-01-01T21:00:00Z" |}.

Definition with_old_file : world :=
  {| disk := Some (Snapshot old_snapshot); log := [] |}.

Definition rising : list Q := [1; 2; 3].

Definition zigzag : list Q := [3; 2; 4; 3; 7].

(** 209 closes at 100 and a last close of 100.004. *)
Definition flat_then_tick : list Q := repeat 100 209 ++ [100.004].

(** 208 closes at 100, then 102.9997 and 99.49955: the last RSI is 29.997. *)
Definition near_thirty : list Q := repeat 100 208 ++ [102.9997; 99.49955].

(** Four closes with no up day. *)
Definition slide : list Q := [5; 4; 4; 2].

(** 209 closes at 100 and a missing (NaN) last close. *)
Definition frame_with_gap : Series := prices (repeat 100 209) ++ [NaN].

Definition env_of_frame (col : Series) : env :=
  {| feed := Frame col;
     headlines := NewsValue [headline_item "Stocks close higher"];
     clock := sample_time; open_ok := true; dump_fault := None |}.

(** The binary64 numbers nearest to 450.57 and to 450.575, and 209 closes
    at the first followed by a close at the second. *)
Definition close_450_57 : Q :=        (* 450.56999999999999317878973670... *)
  7926511266032517 # 17592186044416.

Definition close_450_575 : Q :=       (* 450.57499999999998863131622783... *)
  7926599226962739 # 17592186044416.

Definition tie_below : list Q := repeat close_450_57 209 ++ [close_450_575].

(** 210 closes at [2^1023], a binary64 number of about 9e307. *)
Definition huge_closes : list Q := repeat (inject_Z (2 ^ 1023)) 210.

(** 210 closes falling by 1 a day from 500. *)
Definition falling : list Q :=
  map (fun i => inject_Z (500 - Z.of_nat i)) (seq 0 210).

(** ** Facts about the numbers *)

Lemma Qltb_lt (a b : Q) : Float.Qltb a b = true <-> a < b.
Proof.
  unfold Float.Qltb. rewrite negb_true_iff.
  split; intro H.
  - apply Qnot_le_lt. intro Hle. apply Qle_bool_iff in Hle. congruence.
  - destruct (Qle_bool b a) eqn:E; [|reflexivity].
    apply Qle_bool_iff in E. lra.
Qed.

Lemma Qltb_ge (a b : Q) : Float.Qltb a b = false <-> b <= a.
Proof.
  unfold Float.Qltb. rewrite negb_false_iff. apply Qle_bool_iff.
Qed.

Lemma Qeq_bool_false (a b : Q) : ~ a == b -> Qeq_bool a b = false.
Proof.
  intro H. destruct (Qeq_bool a b) eqn:E; [|reflexivity].
  apply Qeq_bool_iff in E. contradiction.
Qed.

Lemma div_fin (a b : Q) : ~ b == 0 -> Float.div (Fin a) (Fin b) = Fin (a / b).
Proof.
  intro H. simpl. now rewrite (Qeq_bool_false _ _ H).
Qed.

Lemma equiv_refl (x : float) : x =f= x.
Proof. destruct x; simpl; auto. reflexivity. Qed.

Lemma floor_frac (q : Q) : 0 <= q - inject_Z (Qfloor q) < 1.
Proof.
  pose proof (Qfloor_le q). pose proof (Qlt_floor q).
  rewrite inject_Z_plus in H0. change (inject_Z 1) with 1 in H0. lra.
Qed.

Lemma rint_cases (q : Q) :
  let f := Qfloor q in
  let r := q - inject_Z f in
  (Float.rint q = f /\ (r < 1 # 2 \/ (r == 1 # 2 /\ Z.even f = true))) \/
  (Float.rint q = (f + 1)%Z /\ (1 # 2 < r \/ (r == 1 # 2 /\ Z.even f = false))).
Proof.
  intros f r. unfold Float.rint. fold f. fold r.
  destruct (Qcompare_spec r (1 # 2)) as [E|E|E].
  - destruct (Z.even f) eqn:Ev; [left|right]; auto.
  - left; auto.
  - right; auto.
Qed.

Lemma rint_near (q : Q) : Qabs (q - inject_Z (Float.rint q)) <= 1 # 2.
Proof.
  pose proof (floor_frac q) as Hf.
  apply Qabs_Qle_condition.
  destruct (rint_cases q) as [[-> H]|[-> H]];
    try rewrite inject_Z_plus; change (inject_Z 1) with 1; lra.
Qed.

Lemma rint_tie_even (q : Q) :
  Qabs (q - inject_Z (Float.rint q)) == 1 # 2 -> Z.even (Float.rint q) = true.
Proof.
  pose proof (floor_frac q) as Hf.
  destruct (rint_cases q) as [[-> H]|[-> H]].
  - intro E. destruct H as [H|[_ H]]; [|exact H].
    rewrite Qabs_pos in E by lra. lra.
  - rewrite inject_Z_plus. change (inject_Z 1) with 1.
    intro E. rewrite Qabs_neg in E by lra.
    destruct H as [H|[_ H]]; [lra|].
    rewrite Z.even_add, H. reflexivity.
Qed.

Lemma rint_mono (a b : Q) : a <= b -> (Float.rint a <= Float.rint b)%Z.
Proof.
  intro Hab.
  pose proof (floor_frac a) as Ha. pose proof (floor_frac b) as Hb.
  pose proof (Qfloor_resp_le _ _ Hab) as Hf.
  destruct (Z.eq_dec (Qfloor a) (Qfloor b)) as [E|NE].
  - destruct (rint_cases a) as [[-> HA]|[-> HA]];
      destruct (rint_cases b) as [[-> HB]|[-> HB]]; try lia.
    exfalso. rewrite E in *.
    destruct HA as [HA|[HA EA]]; destruct HB as [HB|[HB EB]];
      try lra; congruence.
  - assert (Qfloor a + 1 <= Qfloor b)%Z as Hlt by lia.
    destruct (rint_cases a) as [[-> _]|[-> _]];
      destruct (rint_cases b) as [[-> _]|[-> _]]; lia.
Qed.

Lemma rint_inject_Z (z : Z) : Float.rint (inject_Z z) = z.
Proof.
  unfold Float.rint. rewrite Qfloor_Z.
  destruct (Qcompare_spec (inject_Z z - inject_Z z) (1 # 2)); try lra.
  reflexivity.
Qed.

Lemma rint_proper (a b : Q) : a == b -> Float.rint a = Float.rint b.
Proof.
  intro E. apply Z.le_antisymm; apply rint_mono; rewrite E; apply Qle_refl.
Qed.

Lemma fl_proper (a b : Q) : a == b -> Float.fl a = Float.fl b.
Proof.
  intro E. unfold Float.fl. now rewrite (Qred_complete _ _ E).
Qed.

(** What [round(x, 2)] returns on a number: the product with 100 rounded to
    binary64, that rounded to an integer half to even, and the integer over
    100 rounded to binary64. *)
Lemma round_2_fin (q v : Q) :
  Float.round (Fin q) 2 = Fin v ->
  exists y k,
    Float.fl (q * 100) = Fin y /\
    k = Float.rint y /\
    Float.fl (inject_Z k / 100) = Fin v /\
    Qabs (y - inject_Z k) <= 1 # 2 /\
    (Qabs (y - inject_Z k) == 1 # 2 -> Z.even k = true).
Proof.
  unfold Float.round. change (inject_Z (10 ^ Z.of_nat 2)) with 100.
  destruct (Float.fl (q * 100)) as [y| | |] eqn:E; try discriminate.
  intro H. exists y, (Float.rint y).
  split; [reflexivity|]. split; [reflexivity|]. split; [exact H|].
  split; [apply rint_near|apply rint_tie_even].
Qed.

Lemma round_2_two_decimals (x : float) : Spec.two_decimals (Float.round x 2).
Proof.
  unfold Spec.two_decimals, Float.round.
  change (inject_Z (10 ^ Z.of_nat 2)) with 100.
  destruct x as [q| | |]; auto.
  destruct (Float.fl (q * 100)) as [y| | |]; auto.
  right; right; right. eexists. reflexivity.
Qed.

(** Where the product with 100 is exact, [round(x, 2)] is the binary64
    number nearest to [x] rounded half to even to 2 decimals. *)
Lemma round_2_exact_product (q y : Q) :
  Float.fl (q * 100) = Fin y -> y == q * 100 ->
  Float.round (Fin q) 2 = Float.fl (Spec.half_even_2dp q).
Proof.
  intros E Ey. unfold Float.round, Spec.half_even_2dp.
  change (inject_Z (10 ^ Z.of_nat 2)) with 100. rewrite E.
  now rewrite (rint_proper _ _ Ey).
Qed.

Lemma round_2_zero (r : Q) : r == 0 -> Float.round (Fin r) 2 = Fin 0.
Proof.
  intro E. unfold Float.round.
  change (inject_Z (10 ^ Z.of_nat 2)) with 100.
  assert (r * 100 == 0) as E0 by (rewrite E; ring).
  rewrite (fl_proper _ _ E0). reflexivity.
Qed.

(** The recursion of [Spec.smooth], position by position. *)

Lemma smooth_from_nth (alpha prev : Q) (xs : list Q) (i : nat) :
  (i < length xs)%nat ->
  nth i (Spec.smooth_from alpha prev xs) 0
  = (1 - alpha) * nth i (prev :: Spec.smooth_from alpha prev xs) 0
    + alpha * nth i xs 0.
Proof.
  revert prev i. induction xs as [|x rest IH]; intros prev i Hi;
    simpl in Hi; [lia|].
  destruct i as [|i]; [reflexivity|].
  cbn [Spec.smooth_from nth]. rewrite IH by lia. reflexivity.
Qed.

Lemma smooth_first (alpha x : Q) (rest : list Q) :
  nth 0 (Spec.smooth alpha (x :: rest)) 0 = x.
Proof. reflexivity. Qed.

Lemma smooth_next (alpha : Q) (xs : list Q) (i : nat) :
  (S i < length xs)%nat ->
  nth (S i) (Spec.smooth alpha xs) 0
  = (1 - alpha) * nth i (Spec.smooth alpha xs) 0 + alpha * nth (S i) xs 0.
Proof.
  destruct xs as [|x rest]; simpl; intro Hi; [lia|].
  apply smooth_from_nth. lia.
Qed.

Lemma gain_of_max (d : Q) : Spec.gain_of d == Qmax d 0.
Proof.
  unfold Spec.gain_of. destruct (Qle_bool 0 d) eqn:E.
  - apply Qle_bool_iff in E. now rewrite Q.max_l.
  - rewrite Q.max_r; [reflexivity|].
    apply Qlt_le_weak, Qnot_le_lt. intro H. apply Qle_bool_iff in H. congruence.
Qed.

Lemma loss_of_max (d : Q) : Spec.loss_of d == Qmax (- d) 0.
Proof.
  unfold Spec.loss_of. destruct (Qle_bool 0 (- d)) eqn:E.
  - apply Qle_bool_iff in E. now rewrite Q.max_l.
  - rewrite Q.max_r; [reflexivity|].
    apply Qlt_le_weak, Qnot_le_lt. intro H. apply Qle_bool_iff in H. congruence.
Qed.

(** ** Facts about series *)

Lemma iloc_from_end (s : Series) (k : nat) :
  (1 <= k <= length s)%nat ->
  Series.iloc s (- Z.of_nat k) = Some (from_end s k).
Proof.
  intros [H1 H2]. unfold Series.iloc, from_end.
  assert ((- Z.of_nat k <? 0)%Z = true) as -> by (apply Z.ltb_lt; lia).
  assert ((Z.of_nat (length s) + - Z.of_nat k <? 0)%Z = false) as ->
      by (apply Z.ltb_ge; lia).
  assert ((Z.of_nat (length s) <=? Z.of_nat (length s) + - Z.of_nat k)%Z = false)
    as -> by (apply Z.leb_gt; lia).
  simpl.
  replace (Z.to_nat (Z.of_nat (length s) + - Z.of_nat k)) with (length s - k)%nat
    by lia.
  apply nth_error_nth'. lia.
Qed.

Lemma iloc_out_of_range (s : Series) (k : nat) :
  (length s < k)%nat -> Series.iloc s (- Z.of_nat k) = None.
Proof.
  intro H. unfold Series.iloc.
  assert ((- Z.of_nat k <? 0)%Z = true) as -> by (apply Z.ltb_lt; lia).
  assert ((Z.of_nat (length s) + - Z.of_nat k <? 0)%Z = true) as ->
      by (apply Z.ltb_lt; lia).
  reflexivity.
Qed.

Lemma from_end_app_1 (pre : Series) (a : float) : from_end (pre ++ [a]) 1 = a.
Proof.
  unfold from_end. rewrite length_app. simpl.
  replace (length pre + 1 - 1)%nat with (length pre) by lia.
  now rewrite nth_middle.
Qed.

Lemma from_end_app_2 (pre : Series) (b a : float) :
  from_end (pre ++ [b; a]) 2 = b.
Proof.
  unfold from_end. rewrite length_app. simpl.
  replace (length pre + 2 - 2)%nat with (length pre) by lia.
  now rewrite nth_middle.
Qed.

Lemma from_end_app_3 (pre : Series) (c b a : float) :
  from_end (pre ++ [c; b; a]) 3 = c.
Proof.
  unfold from_end. rewrite length_app. simpl.
  replace (length pre + 3 - 3)%nat with (length pre) by lia.
  now rewrite nth_middle.
Qed.

Lemma length_diff_from (s : Series) (x : float) :
  length (Series.diff_from x s) = length s.
Proof. revert x. induction s; simpl; intros; auto. Qed.

Lemma length_diff (s : Series) : length (Series.diff s) = length s.
Proof. destruct s; simpl; auto using length_diff_from. Qed.

Lemma length_ewm_loop alpha minp st (s : Series) :
  length (Series.ewm_loop alpha minp st s) = length s.
Proof. revert st. induction s; simpl; intros; auto. Qed.

Lemma length_ewm_mean alpha minp (s : Series) :
  length (Series.ewm_mean alpha minp s) = length s.
Proof.
  unfold Series.ewm_mean. destruct s; simpl; [reflexivity|].
  now rewrite length_ewm_loop, length_map.
Qed.

Lemma length_zip_with f (a b : Series) :
  length a = length b -> length (Series.zip_with f a b) = length a.
Proof.
  revert b. induction a; destruct b; simpl; intros; auto; try discriminate.
Qed.

Lemma length_gain (s : Series) : length (gain s) = length s.
Proof. unfold gain, Series.clip_lower, delta. now rewrite length_map, length_diff. Qed.

Lemma length_loss (s : Series) : length (loss s) = length s.
Proof.
  unfold loss, Series.neg, Series.clip_upper, delta.
  now rewrite !length_map, length_diff.
Qed.

Lemma length_rs (s : Series) (P : Z) : length (rs s P) = length s.
Proof.
  unfold rs, Series.div, avg_gain, avg_loss, Series.replace.
  rewrite length_zip_with; rewrite ?length_map, !length_ewm_mean,
    ?length_gain, ?length_loss; reflexivity.
Qed.

Lemma length_rsi_series (s : Series) : length (rsi_series s) = length s.
Proof. unfold rsi_series. now rewrite length_map, length_rs. Qed.

Lemma length_rolling_mean (n : nat) (s : Series) :
  length (Series.rolling_mean n s) = length s.
Proof. unfold Series.rolling_mean. now rewrite length_map, length_seq. Qed.

(** ** Facts about the steps of [run] *)

Lemma logged_logged (w : world) (a b : list event) :
  logged (logged w a) b = logged w (a ++ b).
Proof. unfold logged; simpl. now rewrite app_assoc. Qed.

Lemma bind_ok {A B} (m : M A) (k : A -> M B) e w a w' :
  m e w = (Ok a, w') -> bind m k e w = k a e w'.
Proof. intro H. unfold bind. now rewrite H. Qed.

Lemma bind_raise {A B} (m : M A) (k : A -> M B) e w x w' :
  m e w = (Raise x, w') -> bind m k e w = (Raise x, w').
Proof. intro H. unfold bind. now rewrite H. Qed.

Lemma index_from_end (s : Series) (k : nat) e w :
  (1 <= k <= length s)%nat -> index s (- Z.of_nat k) e w = (Ok (from_end s k), w).
Proof.
  intro H. unfold index. now rewrite (iloc_from_end s k H).
Qed.

Lemma fetch_spy_news_value e w :
  fetch_spy_news e w = (Ok (headline_of (headlines e)), logged w [EvNews]).
Proof.
  unfold fetch_spy_news, try_except, bind, yf_ticker_news, bind, emit, logged.
  simpl. destruct (headlines e) as [|[|[[[[t|]|]|]|] items]]; reflexivity.
Qed.

Lemma three_lower_value (close : Series) e w :
  (3 <= length close)%nat ->
  three_lower close e w =
    (Ok (bit (Float.ltb (from_end close 1) (from_end close 2)
              && Float.ltb (from_end close 2) (from_end close 3))), w).
Proof.
  intro H. unfold three_lower.
  rewrite (bind_ok _ _ _ _ _ _ (index_from_end close 1 e w ltac:(lia))).
  rewrite (bind_ok _ _ _ _ _ _ (index_from_end close 2 e w ltac:(lia))).
  destruct (Float.ltb (from_end close 1) (from_end close 2)); [|reflexivity].
  rewrite (bind_ok _ _ _ _ _ _ (index_from_end close 3 e w ltac:(lia))).
  reflexivity.
Qed.

Lemma run_short (e : env) (w : world) (close : Series) :
  feed e = Frame close -> (length close < 210)%nat ->
  run e w = (Raise (ValueError_not_enough_data (length close)),
             logged w [EvDownload]).
Proof.
  intros Hf Hlen. unfold run.
  assert (yf_download e w = (Ok close, logged w [EvDownload])) as Hd.
  { unfold yf_download, bind, emit. simpl. now rewrite Hf. }
  rewrite (bind_ok _ _ _ _ _ _ Hd).
  apply Nat.ltb_lt in Hlen. rewrite Hlen, orb_true_r. reflexivity.
Qed.

Lemma run_download_raises (e : env) (w : world) :
  feed e = DownloadRaises ->
  run e w = (Raise DownloadError, logged w [EvDownload]).
Proof.
  intros Hf. unfold run.
  apply bind_raise. unfold yf_download, bind, emit. simpl. now rewrite Hf.
Qed.

Lemma run_valid (e : env) (w : world) (close : Series) :
  feed e = Frame close -> (210 <= length close)%nat ->
  run e w =
    persist (snapshot_of close (headline_of (headlines e)) (clock e)) e
            (logged w [EvDownload; EvNews; EvClock]).
Proof.
  intros Hf Hlen. unfold run.
  assert (yf_download e w = (Ok close, logged w [EvDownload])) as Hd.
  { unfold yf_download, bind, emit. simpl. now rewrite Hf. }
  rewrite (bind_ok _ _ _ _ _ _ Hd).
  assert ((length close <? 210)%nat = false) as -> by (apply Nat.ltb_ge; lia).
  assert (match close with [] => true | _ :: _ => false end = false) as ->.
  { destruct close; [simpl in Hlen; lia|reflexivity]. }
  cbv beta iota delta [orb].
  assert (lift (calc_rsi close 2) e (logged w [EvDownload])
          = (Ok (rsi_series close), logged w [EvDownload])) as Hr by reflexivity.
  rewrite (bind_ok _ _ _ _ _ _ Hr).
  rewrite (bind_ok _ _ _ _ _ _
             (index_from_end close 1 e _ ltac:(lia))).
  rewrite (bind_ok _ _ _ _ _ _
             (index_from_end (rsi_series close) 1 e _
                ltac:(rewrite length_rsi_series; lia))).
  rewrite (bind_ok _ _ _ _ _ _
             (index_from_end (Series.rolling_mean 200 close) 1 e _
                ltac:(rewrite length_rolling_mean; lia))).
  rewrite (bind_ok _ _ _ _ _ _ (three_lower_value close e _ ltac:(lia))).
  rewrite (bind_ok _ _ _ _ _ _ (fetch_spy_news_value e _)).
  assert (utc_now e (logged (logged w [EvDownload]) [EvNews])
          = (Ok (clock e), logged w [EvDownload; EvNews; EvClock])) as Hc.
  { unfold utc_now, bind, emit, logged. simpl.
    now rewrite <- !app_assoc. }
  rewrite (bind_ok _ _ _ _ _ _ Hc).
  reflexivity.
Qed.

Lemma persist_cases (p : payload) (e : env) (w : world) :
  persist p e w =
    if open_ok e then
      match dump_fault e with
      | Some n =>
          (Raise DumpError,
           {| disk := Some (Partial p n); log := log w ++ [EvOpen; EvWrite] |})
      | None =>
          (Ok tt,
           {| disk := Some (Snapshot p);
              log := log w ++ [EvOpen; EvWrite; EvPrint; EvPrint; EvPrint;
                               EvPrint; EvPrint] |})
      end
    else (Raise OSError_open, logged w [EvOpen]).
Proof.
  unfold persist, bind, open_w, json_dump, print, bind, emit, logged. simpl.
  destruct (open_ok e); [|reflexivity].
  destruct (dump_fault e); simpl; rewrite <- ?app_assoc; reflexivity.
Qed.

(** ** [calc_rsi] on a price series *)

Lemma diff_from_prices (prev : Q) (ps : list Q) :
  Series.diff_from (Fin prev) (prices ps) = map Fin (Spec.diffs_from prev ps).
Proof.
  revert prev. induction ps as [|p rest IH]; intro prev; simpl; [reflexivity|].
  now rewrite <- IH.
Qed.

Lemma gain_prices (p : Q) (rest : list Q) :
  gain (prices (p :: rest))
  = NaN :: map Fin (map gain_q (Spec.diffs_from p rest)).
Proof.
  unfold gain, delta, Series.clip_lower. simpl. f_equal.
  rewrite diff_from_prices, !map_map. apply map_ext. intro d.
  unfold gain_q. simpl. now destruct (Float.Qltb d 0).
Qed.

Lemma loss_prices (p : Q) (rest : list Q) :
  loss (prices (p :: rest))
  = NaN :: map Fin (map loss_q (Spec.diffs_from p rest)).
Proof.
  unfold loss, delta, Series.neg, Series.clip_upper. simpl. f_equal.
  rewrite diff_from_prices, !map_map. apply map_ext. intro d.
  unfold loss_q, Float.gtb. simpl. now destruct (Float.Qltb 0 d).
Qed.

Lemma gain_q_spec (d : Q) : gain_q d = Spec.gain_of d.
Proof.
  unfold gain_q, Spec.gain_of, Float.Qltb. now destruct (Qle_bool 0 d).
Qed.

Lemma loss_q_spec (d : Q) : loss_q d = Spec.loss_of d.
Proof.
  unfold loss_q, Spec.loss_of, Float.Qltb.
  destruct (Qle_bool d 0) eqn:E1; destruct (Qle_bool 0 (- d)) eqn:E2;
    try reflexivity; exfalso.
  - apply Qle_bool_iff in E1.
    assert (0 <= - d) as H by lra. apply Qle_bool_iff in H. congruence.
  - apply Qle_bool_iff in E2.
    assert (d <= 0) as H by lra. apply Qle_bool_iff in H. congruence.
Qed.

Lemma gain_q_nonneg (d : Q) : 0 <= gain_q d.
Proof.
  unfold gain_q. destruct (Float.Qltb d 0) eqn:E; [lra|].
  now apply Qltb_ge in E.
Qed.

Lemma loss_q_nonneg (d : Q) : 0 <= loss_q d.
Proof.
  unfold loss_q. destruct (Float.Qltb 0 d) eqn:E; [lra|].
  apply Qltb_ge in E. lra.
Qed.

Lemma ewm_new_wt_eq (alpha : Q) :
  Series.ewm_new_wt alpha (1 * (1 - alpha)) == alpha.
Proof.
  unfold Series.ewm_new_wt.
  destruct (Qeq_bool ((1 - alpha) / alpha) 1); ring.
Qed.

Lemma ewm_weight_one (alpha : Q) :
  ~ 1 * (1 - alpha) + Series.ewm_new_wt alpha (1 * (1 - alpha)) == 0.
Proof.
  intro H. rewrite ewm_new_wt_eq in H.
  assert (1 * (1 - alpha) + alpha == 1) by ring. lra.
Qed.

Lemma ewm_step_fin (alpha w x : Q) (n : nat) :
  Series.ewm_step alpha (Series.EwmAcc (Fin w) 1 n) (Fin x)
  = Series.EwmAcc (Fin (ewm_q_step alpha w x)) 1 (S n).
Proof.
  unfold Series.ewm_step, ewm_q_step, Float.neb. simpl Float.is_nan.
  cbv iota beta. simpl Float.eqb. simpl Series.weighted.
  simpl Series.old_wt. simpl Series.nobs. simpl negb at 1.
  cbv iota. f_equal.
  destruct (negb (Qeq_bool w x)); [|reflexivity].
  simpl Float.mul. simpl Float.add.
  apply div_fin. apply ewm_weight_one.
Qed.

Lemma ewm_loop_fin (alpha w : Q) (minp n : nat) (xs : list Q) :
  Series.ewm_loop alpha minp (Series.EwmAcc (Fin w) 1 n) (map Fin xs)
  = masked minp n (ewm_q_loop alpha w xs).
Proof.
  revert w n. induction xs as [|x rest IH]; intros w n; [reflexivity|].
  simpl map. cbn [Series.ewm_loop ewm_q_loop masked].
  rewrite ewm_step_fin. cbv zeta. rewrite IH. reflexivity.
Qed.

Lemma inf_to_nan_fin (xs : list Q) :
  map Series.inf_to_nan (map Fin xs) = map Fin xs.
Proof. rewrite map_map. apply map_ext. reflexivity. Qed.

Lemma ewm_mean_fin (alpha : Q) (minp : nat) (xs : list Q) :
  Series.ewm_mean alpha minp (NaN :: map Fin xs)
  = NaN :: masked (Nat.max minp 1) 0 (ewm_q alpha xs).
Proof.
  unfold Series.ewm_mean. cbn [map Series.inf_to_nan].
  rewrite inf_to_nan_fin. cbv zeta. f_equal.
  - unfold Series.ewm_emit, Series.ewm_init. simpl.
    destruct (Nat.max minp 1) eqn:E; [lia|reflexivity].
  - destruct xs as [|x rest]; [reflexivity|].
    simpl map. cbn [Series.ewm_loop ewm_q masked].
    assert (Series.ewm_step alpha (Series.ewm_init NaN) (Fin x)
            = Series.EwmAcc (Fin x) 1 1) as -> by reflexivity.
    cbv zeta. rewrite ewm_loop_fin. reflexivity.
Qed.

Lemma avg_gain_prices (p : Q) (rest : list Q) (P : Z) :
  avg_gain (prices (p :: rest)) P
  = NaN :: masked (Nat.max (Z.to_nat P) 1) 0
             (ewm_q (1 / inject_Z P) (map gain_q (Spec.diffs_from p rest))).
Proof. unfold avg_gain. rewrite gain_prices. apply ewm_mean_fin. Qed.

Lemma avg_loss_prices (p : Q) (rest : list Q) (P : Z) :
  avg_loss (prices (p :: rest)) P
  = NaN :: masked (Nat.max (Z.to_nat P) 1) 0
             (ewm_q (1 / inject_Z P) (map loss_q (Spec.diffs_from p rest))).
Proof. unfold avg_loss. rewrite loss_prices. apply ewm_mean_fin. Qed.

Lemma ewm_q_step_eq (alpha w x : Q) :
  ewm_q_step alpha w x == (1 - alpha) * w + alpha * x.
Proof.
  unfold ewm_q_step. destruct (Qeq_bool w x) eqn:E; simpl.
  - apply Qeq_bool_iff in E. rewrite <- E. ring.
  - pose proof (ewm_weight_one alpha) as Hw.
    set (nw := Series.ewm_new_wt alpha (1 * (1 - alpha))) in *.
    assert (nw == alpha) as En by apply ewm_new_wt_eq.
    assert ((1 * (1 - alpha) * w + nw * x) / (1 * (1 - alpha) + nw)
            == (1 * (1 - alpha) * w + nw * x)) as ->.
    { assert (1 * (1 - alpha) + nw == 1) as -> by (rewrite En; ring).
      field. }
    rewrite En. ring.
Qed.

Lemma ewm_q_loop_smooth (alpha w s : Q) (xs : list Q) :
  w == s ->
  Forall2 Qeq (ewm_q_loop alpha w xs) (Spec.smooth_from alpha s xs).
Proof.
  revert w s. induction xs as [|x rest IH]; intros w s E; simpl; constructor.
  - rewrite ewm_q_step_eq, E. reflexivity.
  - apply IH. rewrite ewm_q_step_eq, E. reflexivity.
Qed.

Lemma ewm_q_smooth (alpha : Q) (xs : list Q) :
  Forall2 Qeq (ewm_q alpha xs) (Spec.smooth alpha xs).
Proof.
  destruct xs as [|x rest]; simpl; constructor; [reflexivity|].
  apply ewm_q_loop_smooth. reflexivity.
Qed.

Lemma masked_undefined_first (minp n : nat) (l l' : list Q) :
  (1 <= minp)%nat -> Forall2 Qeq l l' ->
  Forall2 Float.equiv (masked minp n l) (Spec.undefined_first (minp - 1 - n) l').
Proof.
  intros Hm H. revert n. induction H as [|q q' l l' E H IH]; intro n; simpl;
    [constructor|].
  destruct (minp - 1 - n)%nat as [|k] eqn:Ek.
  - assert ((minp <=? S n)%nat = true) as -> by (apply Nat.leb_le; lia).
    constructor; [exact E|].
    specialize (IH (S n)).
    replace (minp - 1 - S n)%nat with 0%nat in IH by lia. exact IH.
  - assert ((minp <=? S n)%nat = false) as -> by (apply Nat.leb_gt; lia).
    constructor; [exact I|].
    specialize (IH (S n)).
    replace (minp - 1 - S n)%nat with k in IH by lia. exact IH.
Qed.

Lemma ewm_q_loop_nonneg (alpha w : Q) (xs : list Q) :
  0 <= alpha <= 1 -> 0 <= w -> Forall (fun x => 0 <= x) xs ->
  Forall (fun x => 0 <= x) (ewm_q_loop alpha w xs).
Proof.
  intros Ha Hw H. revert w Hw.
  induction H as [|x rest Hx H IH]; intros w Hw; simpl; constructor.
  - rewrite ewm_q_step_eq.
    assert (0 <= (1 - alpha) * w) by (apply Qmult_le_0_compat; lra).
    assert (0 <= alpha * x) by (apply Qmult_le_0_compat; lra). lra.
  - apply IH. rewrite ewm_q_step_eq.
    assert (0 <= (1 - alpha) * w) by (apply Qmult_le_0_compat; lra).
    assert (0 <= alpha * x) by (apply Qmult_le_0_compat; lra). lra.
Qed.

Lemma ewm_q_nonneg (alpha : Q) (xs : list Q) :
  0 <= alpha <= 1 -> Forall (fun x => 0 <= x) xs ->
  Forall (fun x => 0 <= x) (ewm_q alpha xs).
Proof.
  intros Ha H. destruct H as [|x rest Hx H]; simpl; constructor; auto.
  now apply ewm_q_loop_nonneg.
Qed.

Lemma ewm_q_loop_zero (alpha w : Q) (xs : list Q) :
  w == 0 -> Forall (fun x => x == 0) xs ->
  Forall (fun x => x == 0) (ewm_q_loop alpha w xs).
Proof.
  intros Hw H. revert w Hw.
  induction H as [|x rest Hx H IH]; intros w Hw; simpl; constructor.
  - rewrite ewm_q_step_eq, Hw, Hx. ring.
  - apply IH. rewrite ewm_q_step_eq, Hw, Hx. ring.
Qed.

Lemma ewm_q_zero (alpha : Q) (xs : list Q) :
  Forall (fun x => x == 0) xs -> Forall (fun x => x == 0) (ewm_q alpha xs).
Proof.
  intros H. destruct H as [|x rest Hx H]; simpl; constructor; auto.
  now apply ewm_q_loop_zero.
Qed.

Lemma length_ewm_q_loop (alpha w : Q) (xs : list Q) :
  length (ewm_q_loop alpha w xs) = length xs.
Proof. revert w. induction xs; simpl; intros; auto. Qed.

Lemma length_ewm_q (alpha : Q) (xs : list Q) :
  length (ewm_q alpha xs) = length xs.
Proof. destruct xs; simpl; auto using length_ewm_q_loop. Qed.

Lemma length_diffs_from (p : Q) (ps : list Q) :
  length (Spec.diffs_from p ps) = length ps.
Proof. revert p. induction ps; simpl; intros; auto. Qed.

Lemma nth_masked (minp n j : nat) (l : list Q) :
  (j < length l)%nat -> (minp <= S (n + j))%nat ->
  nth j (masked minp n l) NaN = Fin (nth j l 0).
Proof.
  revert n j. induction l as [|q rest IH]; intros n j Hj Hm; simpl in *; [lia|].
  destruct j as [|j].
  - assert ((minp <=? S n)%nat = true) as -> by (apply Nat.leb_le; lia).
    reflexivity.
  - apply IH; lia.
Qed.

Lemma nth_masked_nan (minp n j : nat) (l : list Q) :
  (S (n + j) < minp)%nat -> nth j (masked minp n l) NaN = NaN.
Proof.
  revert n j. induction l as [|q rest IH]; intros n j Hm; simpl in *.
  - now destruct j.
  - destruct j as [|j].
    + assert ((minp <=? S n)%nat = false) as -> by (apply Nat.leb_gt; lia).
      reflexivity.
    + apply IH; lia.
Qed.

Lemma nth_zip_with f (a b : Series) (i : nat) :
  (i < length a)%nat -> (i < length b)%nat ->
  nth i (Series.zip_with f a b) NaN = f (nth i a NaN) (nth i b NaN).
Proof.
  revert b i. induction a as [|x a IH]; intros [|y b] [|i] Ha Hb;
    simpl in *; try lia; auto.
  apply IH; lia.
Qed.

Lemma nth_map_nan (f : float -> float) (l : Series) (i : nat) :
  f NaN = NaN -> nth i (map f l) NaN = f (nth i l NaN).
Proof. intro H. rewrite <- H at 1. apply map_nth. Qed.

Lemma rsi_series_nth (close : Series) (i : nat) :
  (i < length close)%nat ->
  nth i (rsi_series close) NaN
  = rsi_point (nth i (avg_gain close 2) NaN) (nth i (avg_loss close 2) NaN).
Proof.
  intro Hi. unfold rsi_series, rs, Series.div, Series.replace, rsi_point.
  rewrite nth_map_nan by reflexivity.
  rewrite nth_zip_with.
  - now rewrite nth_map_nan by reflexivity.
  - unfold avg_gain. now rewrite length_ewm_mean, length_gain.
  - unfold avg_loss. now rewrite length_map, length_ewm_mean, length_loss.
Qed.

Lemma rsi_point_zero_loss (g l : Q) :
  l == 0 -> rsi_point (Fin g) (Fin l) = Fin (100 + - (100 / (1 + 0))).
Proof.
  intro E. unfold rsi_point. simpl Float.eqb.
  apply Qeq_bool_iff in E. rewrite E. reflexivity.
Qed.

Lemma rsi_point_fin (g l : Q) :
  0 <= g -> 0 <= l -> exists r, rsi_point (Fin g) (Fin l) = Fin r.
Proof.
  intros Hg Hl. destruct (Qeq_bool l 0) eqn:E.
  - apply Qeq_bool_iff in E. eexists. now apply rsi_point_zero_loss.
  - unfold rsi_point. simpl Float.eqb. rewrite E.
    assert (~ l == 0) as Hn.
    { intro H. apply Qeq_bool_iff in H. congruence. }
    rewrite div_fin by exact Hn.
    unfold rsi_of_rs. simpl Float.add.
    assert (0 <= g / l) as Hq.
    { apply Qle_shift_div_l; lra. }
    rewrite div_fin by lra.
    eexists. reflexivity.
Qed.

Lemma half_is_weight : 0 <= 1 / inject_Z 2 <= 1.
Proof. split; unfold Qle; simpl; lia. Qed.

Lemma rsi_nth_prices (p : Q) (rest : list Q) (j : nat) :
  (1 <= j < length rest)%nat ->
  nth (S j) (rsi_series (prices (p :: rest))) NaN
  = rsi_point
      (Fin (nth j (ewm_q (1 / inject_Z 2)
                     (map gain_q (Spec.diffs_from p rest))) 0))
      (Fin (nth j (ewm_q (1 / inject_Z 2)
                     (map loss_q (Spec.diffs_from p rest))) 0)).
Proof.
  intro H.
  rewrite rsi_series_nth
    by (unfold prices; rewrite length_map; simpl; lia).
  rewrite avg_gain_prices, avg_loss_prices.
  cbn [nth].
  rewrite !nth_masked;
    rewrite ?length_ewm_q, ?length_map, ?length_diffs_from; simpl; try lia.
  reflexivity.
Qed.

Lemma rsi_last_prices (p : Q) (rest : list Q) :
  (2 <= length rest)%nat ->
  from_end (rsi_series (prices (p :: rest))) 1
  = rsi_point
      (Fin (nth (length rest - 1)
              (ewm_q (1 / inject_Z 2) (map gain_q (Spec.diffs_from p rest))) 0))
      (Fin (nth (length rest - 1)
              (ewm_q (1 / inject_Z 2) (map loss_q (Spec.diffs_from p rest))) 0)).
Proof.
  intro H. unfold from_end. rewrite length_rsi_series.
  unfold prices at 1. rewrite length_map. simpl length.
  replace (S (length rest) - 1)%nat with (S (length rest - 1)) by lia.
  apply rsi_nth_prices. lia.
Qed.

Lemma prices_finite_last_rsi (ps : list Q) :
  (3 <= length ps)%nat ->
  exists r, from_end (rsi_series (prices ps)) 1 = Fin r.
Proof.
  intro H. destruct ps as [|p rest]; [simpl in H; lia|].
  simpl in H. rewrite rsi_last_prices by lia.
  set (n := (length rest - 1)%nat).
  assert (n < length rest)%nat as Hn by (unfold n; lia).
  apply rsi_point_fin.
  - apply (proj1 (Forall_nth _ _)); [|now rewrite length_ewm_q, length_map, length_diffs_from].
    apply ewm_q_nonneg; [apply half_is_weight|].
    apply Forall_map, Forall_forall. intros; apply gain_q_nonneg.
  - apply (proj1 (Forall_nth _ _)); [|now rewrite length_ewm_q, length_map, length_diffs_from].
    apply ewm_q_nonneg; [apply half_is_weight|].
    apply Forall_map, Forall_forall. intros; apply loss_q_nonneg.
Qed.

(** The last value of the 200-day rolling mean. *)

Lemma fold_add_fin (l : list Q) (a : Q) :
  fold_left Float.add (map Fin l) (Fin a) = Fin (fold_left Qplus l a).
Proof. revert a. induction l; simpl; intros; auto. Qed.

Lemma fold_left_sum (l : list Q) (a : Q) :
  fold_left Qplus l a == a + Spec.sum l.
Proof.
  revert a. induction l as [|x l IH]; intro a; simpl.
  - ring.
  - rewrite IH. ring.
Qed.

Lemma filter_finite_prices (l : list Q) :
  filter Float.is_finite (map Fin l) = map Fin l.
Proof. induction l; simpl; congruence. Qed.

Lemma rolling_mean_last (n : nat) (s : Series) :
  s <> [] ->
  from_end (Series.rolling_mean n s) 1
  = Series.window_mean n (Series.last_n n s).
Proof.
  intro Hs. unfold from_end. rewrite length_rolling_mean.
  unfold Series.rolling_mean.
  assert (0 < length s)%nat as Hl by (destruct s; simpl; [congruence|lia]).
  apply nth_error_nth.
  rewrite nth_error_map, nth_error_nth' with (d := 0%nat)
    by (rewrite length_seq; lia).
  rewrite seq_nth by lia. cbn [Nat.add option_map].
  replace (S (length s - 1)) with (length s) by lia.
  now rewrite firstn_all.
Qed.

Lemma sma_last_prices (ps : list Q) :
  (200 <= length ps)%nat ->
  exists m, from_end (Series.rolling_mean 200 (prices ps)) 1 = Fin m
            /\ m == Spec.trailing_mean 200 ps.
Proof.
  intro H. rewrite rolling_mean_last
    by (destruct ps; [simpl in H; lia|discriminate]).
  unfold Series.window_mean, Series.last_n, prices.
  rewrite length_map, skipn_map, filter_finite_prices, length_map, length_skipn.
  replace (length ps - (length ps - 200))%nat with 200%nat by lia.
  cbv iota beta zeta. simpl andb. cbv iota.
  rewrite fold_add_fin, div_fin by discriminate.
  eexists. split; [reflexivity|].
  unfold Spec.trailing_mean. rewrite fold_left_sum.
  setoid_replace (0 + Spec.sum (skipn (length ps - 200) ps))
    with (Spec.sum (skipn (length ps - 200) ps)) by ring.
  reflexivity.
Qed.

(** ** [run] in closed form *)

Lemma run_unfold (e : env) (w : world) :
  run e w =
    match feed e with
    | DownloadRaises => (Raise DownloadError, logged w [EvDownload])
    | Frame close =>
        if (length close <? 210)%nat then
          (Raise (ValueError_not_enough_data (length close)),
           logged w [EvDownload])
        else
          persist (snapshot_of close (headline_of (headlines e)) (clock e)) e
                  (logged w [EvDownload; EvNews; EvClock])
    end.
Proof.
  destruct (feed e) as [|close] eqn:Hf.
  - now apply run_download_raises.
  - destruct (length close <? 210)%nat eqn:Hl.
    + apply run_short; [exact Hf|]. now apply Nat.ltb_lt.
    + apply run_valid; [exact Hf|]. now apply Nat.ltb_ge.
Qed.

Lemma run_ok (e : env) (w : world) (close : Series) :
  feed e = Frame close -> (210 <= length close)%nat ->
  open_ok e = true -> dump_fault e = None ->
  run e w =
    (Ok tt,
     {| disk := Some (Snapshot (snapshot_of close (headline_of (headlines e))
                                            (clock e)));
        log := log w ++ [EvDownload; EvNews; EvClock; EvOpen; EvWrite;
                         EvPrint; EvPrint; EvPrint; EvPrint; EvPrint] |}).
Proof.
  intros Hf Hl Ho Hd. rewrite run_unfold, Hf.
  assert ((length close <? 210)%nat = false) as -> by (apply Nat.ltb_ge; lia).
  rewrite persist_cases, Ho, Hd. unfold logged. simpl.
  now rewrite <- app_assoc.
Qed.

Lemma run_ok_inv (e : env) (w w1 : world) (close : Series) :
  feed e = Frame close -> run e w = (Ok tt, w1) ->
  (210 <= length close)%nat /\ open_ok e = true /\ dump_fault e = None /\
  disk w1 = Some (Snapshot (snapshot_of close (headline_of (headlines e))
                                        (clock e))).
Proof.
  intros Hf H. rewrite run_unfold, Hf in H.
  destruct (length close <? 210)%nat eqn:Hl; [discriminate|].
  apply Nat.ltb_ge in Hl. rewrite persist_cases in H.
  destruct (open_ok e); [|discriminate].
  destruct (dump_fault e); [discriminate|].
  inversion H; subst; simpl. auto.
Qed.

Lemma from_end_prices_1 (ps : list Q) :
  ps <> [] -> from_end (prices ps) 1 = Fin (last ps 0).
Proof.
  intro H. destruct (exists_last H) as [pre [a ->]].
  unfold prices. rewrite map_app, last_last. simpl. apply from_end_app_1.
Qed.

Lemma from_end_prices (ps : list Q) (k : nat) :
  (1 <= k <= length ps)%nat ->
  from_end (prices ps) k = Fin (nth (length ps - k) ps 0).
Proof.
  intro H. unfold from_end, prices. rewrite length_map.
  apply nth_error_nth. rewrite nth_error_map.
  rewrite nth_error_nth' with (d := 0) by lia. reflexivity.
Qed.

Lemma bit_1 (b : bool) : bit b = 1%Z <-> b = true.
Proof. destruct b; simpl; split; intro; congruence. Qed.

Lemma bit_0 (b : bool) : bit b = 0%Z <-> b = false.
Proof. destruct b; simpl; split; intro; congruence. Qed.

(** * The claims *)

(** ** C2: fewer than 210 observations *)

(** C2.  Whenever the fetched frame has fewer than 210 rows (the empty frame
    included), [run] raises the not-enough-data [ValueError]; the only
    external action performed is the download: the news feed is not asked,
    the output file is neither opened nor written nor created, and what the
    file held before the run is what it holds after. *)
Theorem run_insufficient_data (e : env) (w : world) (close : Series) :
  feed e = Frame close -> (length close < 210)%nat ->
  exists w1,
    run e w = (Raise (ValueError_not_enough_data (length close)), w1) /\
    disk w1 = disk w /\
    log w1 = log w ++ [EvDownload].
Proof.
  intros Hf Hlen. exists (logged w [EvDownload]).
  split; [now apply run_short|]. split; reflexivity.
Qed.

Lemma run_insufficient_data_witness :
  exists w1,
    run (env_of rising) with_old_file
      = (Raise (ValueError_not_enough_data 3), w1) /\
    disk w1 = Some (Snapshot old_snapshot) /\
    log w1 = [EvDownload].
Proof.
  apply (run_insufficient_data (env_of rising) with_old_file (prices rising)).
  - reflexivity.
  - simpl. lia.
Defined.

(** ** C3: three lower closes *)

(** C3.  On a price series that ends with the closes [c], [b], [a] (most
    recent last), the expression for [three_lower] evaluates without error
    to 1 exactly when [a < b] and [b < c], and to 0 otherwise; this value is
    the [three_lower_closes] field of the snapshot a successful run writes. *)
Theorem three_lower_closes_strictly_decreasing
  (pre : list Q) (c b a : Q) (e : env) (w : world) :
  exists v : Z,
    three_lower (prices (pre ++ [c; b; a])) e w = (Ok v, w) /\
    (v = 1%Z <-> a < b /\ b < c) /\
    (v = 0%Z <-> ~ (a < b /\ b < c)) /\
    (forall w1,
        feed e = Frame (prices (pre ++ [c; b; a])) ->
        run e w = (Ok tt, w1) ->
        exists p, disk w1 = Some (Snapshot p) /\ three_lower_closes p = v).
Proof.
  set (close := prices (pre ++ [c; b; a])).
  assert (close = prices pre ++ [Fin c; Fin b; Fin a]) as Hc
      by (unfold close, prices; now rewrite map_app).
  assert (from_end close 1 = Fin a) as H1.
  { rewrite Hc. change [Fin c; Fin b; Fin a] with ([Fin c; Fin b] ++ [Fin a]).
    rewrite app_assoc. apply from_end_app_1. }
  assert (from_end close 2 = Fin b) as H2.
  { rewrite Hc. change [Fin c; Fin b; Fin a] with ([Fin c] ++ [Fin b; Fin a]).
    rewrite app_assoc. apply from_end_app_2. }
  assert (from_end close 3 = Fin c) as H3
      by (rewrite Hc; apply from_end_app_3).
  exists (bit (Float.Qltb a b && Float.Qltb b c)).
  split; [|split; [|split]].
  - rewrite three_lower_value.
    + now rewrite H1, H2, H3.
    + unfold close, prices. rewrite length_map, length_app. simpl. lia.
  - rewrite bit_1, andb_true_iff, !Qltb_lt. reflexivity.
  - rewrite bit_0, <- not_true_iff_false, andb_true_iff, !Qltb_lt. reflexivity.
  - intros w1 Hf Hrun.
    destruct (run_ok_inv e w w1 close Hf Hrun) as (_ & _ & _ & Hd).
    eexists. split; [exact Hd|]. simpl. now rewrite H1, H2, H3.
Qed.

Lemma three_lower_closes_strictly_decreasing_witness :
  three_lower (prices (falling)) (env_of falling) no_file = (Ok 1%Z, no_file)
  /\ three_lower (prices [100; 101; 100]) (env_of [100; 101; 100]) no_file
     = (Ok 0%Z, no_file).
Proof.
  split.
  - destruct (three_lower_closes_strictly_decreasing
                (firstn 207 falling) 293 292 291 (env_of falling) no_file)
      as (v & Hv & H1 & _).
    change (firstn 207 falling ++ [293; 292; 291]) with falling in Hv.
    rewrite Hv. f_equal. f_equal. apply H1. split; reflexivity.
  - destruct (three_lower_closes_strictly_decreasing
                [] 100 101 100 (env_of [100; 101; 100]) no_file)
      as (v & Hv & _ & H0 & _).
    simpl app in Hv. rewrite Hv. f_equal. f_equal. apply H0.
    intros [_ H]. revert H. unfold Qlt. simpl. lia.
Defined.

(** ** C4: above the 200-day average *)




(** ** C5: RSI below 30 *)




(** ** C6: a write that fails partway *)

(** C6, as stated, fails: with a snapshot already stored and 210 valid
    closes fetched, a [json.dump] that raises after 25 characters makes the
    run fail, and the file no longer holds the previous snapshot but the 25
    characters written: [open(out, "w")] emptied it before the write. *)
Lemma failed_write_destroys_old_snapshot :
  exists w1,
    run (env_dump_fails falling 25) with_old_file = (Raise DumpError, w1) /\
    disk with_old_file = Some (Snapshot old_snapshot) /\
    disk w1 <> disk with_old_file /\
    exists p, disk w1 = Some (Partial p 25).
Proof.
  eexists. split; [vm_compute; reflexivity|].
  split; [reflexivity|]. split; [discriminate|].
  eexists. reflexivity.
Qed.

(** C6, amended.  The write is an overwrite in place.  A run that fails
    before the output file is opened, or at the open, leaves the file as it
    was; a run that fails while the snapshot is being written leaves the
    file holding the part of the new text written so far, whatever it held
    before. *)
Theorem failed_run_and_old_snapshot (e : env) (w w1 : world) (x : exn) :
  run e w = (Raise x, w1) ->
  (x <> DumpError -> disk w1 = disk w) /\
  (x = DumpError ->
     exists close n,
       feed e = Frame close /\ dump_fault e = Some n /\
       disk w1 = Some (Partial (snapshot_of close (headline_of (headlines e))
                                            (clock e)) n)).
Proof.
  intro H. rewrite run_unfold in H.
  destruct (feed e) as [|close] eqn:Hf.
  - inversion H; subst. split; [reflexivity|discriminate].
  - destruct (length close <? 210)%nat.
    + inversion H; subst. split; [reflexivity|discriminate].
    + rewrite persist_cases in H. destruct (open_ok e).
      * destruct (dump_fault e) as [n|] eqn:Hd; [|discriminate].
        inversion H; subst. split; [congruence|].
        intros _. exists close, n. auto.
      * inversion H; subst. split; [reflexivity|discriminate].
Qed.

Lemma failed_run_and_old_snapshot_witness :
  (DumpError <> DumpError ->
   disk (snd (run (env_dump_fails falling 25) with_old_file))
   = disk with_old_file) /\
  (DumpError = DumpError ->
   exists close n,
     feed (env_dump_fails falling 25) = Frame close /\
     dump_fault (env_dump_fails falling 25) = Some n /\
     disk (snd (run (env_dump_fails falling 25) with_old_file))
     = Some (Partial (snapshot_of close
                        (headline_of (headlines (env_dump_fails falling 25)))
                        (clock (env_dump_fails falling 25))) n)).
Proof.
  apply (failed_run_and_old_snapshot (env_dump_fails falling 25) with_old_file).
  vm_compute. reflexivity.
Defined.

(** ** C7: the headline fetch fails *)

(** C7.  Replace the answer of the news feed by a failure (the property
    raises, or it returns no items).  The run then ends as it did (same
    result, same exception if any: the failure aborts nothing), and if the
    run wrote the snapshot [p], the run with the failing feed writes a
    snapshot with the same ticker, signals, metrics and time, and the empty
    string as [news]. *)
Theorem headline_failure_only_empties_news
  (e : env) (w : world) (failed : news_feed) :
  failed = NewsRaises \/ failed = NewsValue [] ->
  fst (run (with_headlines e failed) w) = fst (run e w) /\
  forall p w1,
    run e w = (Ok tt, w1) -> disk w1 = Some (Snapshot p) ->
    exists p' w1',
      run (with_headlines e failed) w = (Ok tt, w1') /\
      disk w1' = Some (Snapshot p') /\
      news (metrics_of p') = EmptyString /\
      ticker p' = ticker p /\
      rsi_2_below_30 p' = rsi_2_below_30 p /\
      three_lower_closes p' = three_lower_closes p /\
      above_sma200 p' = above_sma200 p /\
      last_close (metrics_of p') = last_close (metrics_of p) /\
      rsi2 (metrics_of p') = rsi2 (metrics_of p) /\
      sma200 (metrics_of p') = sma200 (metrics_of p) /\
      updated_at p' = updated_at p.
Proof.
  intro Hfail.
  assert (headline_of failed = EmptyString) as Hh
      by (destruct Hfail; subst; reflexivity).
  rewrite !run_unfold. cbn [with_headlines feed headlines clock].
  destruct (feed e) as [|close] eqn:Hf.
  - split; [reflexivity|]. intros p w1 H. discriminate.
  - destruct (length close <? 210)%nat.
    + split; [reflexivity|]. intros p w1 H. discriminate.
    + rewrite !persist_cases. cbn [with_headlines open_ok dump_fault].
      destruct (open_ok e); [|split; [reflexivity|intros p w1 H; discriminate]].
      destruct (dump_fault e);
        [split; [reflexivity|intros p w1 H; discriminate]|].
      split; [reflexivity|]. intros p w1 H Hd.
      inversion H; subst. simpl in Hd. inversion Hd; subst.
      eexists. eexists. split; [reflexivity|]. split; [reflexivity|].
      rewrite Hh. cbn. repeat split; reflexivity.
Qed.

Lemma headline_failure_only_empties_news_witness :
  fst (run (with_headlines (env_of falling) NewsRaises) no_file)
  = fst (run (env_of falling) no_file) /\
  forall p w1,
    run (env_of falling) no_file = (Ok tt, w1) ->
    disk w1 = Some (Snapshot p) ->
    exists p' w1',
      run (with_headlines (env_of falling) NewsRaises) no_file = (Ok tt, w1') /\
      disk w1' = Some (Snapshot p') /\
      news (metrics_of p') = EmptyString /\
      ticker p' = ticker p /\
      rsi_2_below_30 p' = rsi_2_below_30 p /\
      three_lower_closes p' = three_lower_closes p /\
      above_sma200 p' = above_sma200 p /\
      last_close (metrics_of p') = last_close (metrics_of p) /\
      rsi2 (metrics_of p') = rsi2 (metrics_of p) /\
      sma200 (metrics_of p') = sma200 (metrics_of p) /\
      updated_at p' = updated_at p.
Proof.
  apply (headline_failure_only_empties_news (env_of falling) no_file NewsRaises).
  left. reflexivity.
Defined.

(** ** C8: the smoothed averages *)



(** ** C9: rounding of the metrics *)

(** C9, as stated, fails: with a latest close of 450.57499999999998863...
    (the binary64 number nearest to 450.575) after 209 closes at the
    binary64 number nearest to 450.57, the [last_close] written is the
    binary64 number nearest to 450.58, although the close rounded to 2
    decimal places is 450.57 both half to even and half up: the written
    value lies more than half a hundredth above the close. *)
Lemma last_close_not_nearest_hundredth_counterexample :
  exists p w1,
    run (env_of tie_below) no_file = (Ok tt, w1) /\
    disk w1 = Some (Snapshot p) /\
    Series.iloc (prices tie_below) (-1) = Some (Fin close_450_575) /\
    last_close (metrics_of p) = Float.fl 450.58 /\
    Spec.half_even_2dp close_450_575 == 450.57 /\
    Spec.half_up_2dp close_450_575 == 450.57 /\
    Float.fl 450.58 <> Float.fl 450.57 /\
    1 # 200 < 450.58 - close_450_575.
Proof.
  pose proof (run_ok (env_of tie_below) no_file (prices tie_below)
                eq_refl ltac:(apply Nat.leb_le; reflexivity) eq_refl eq_refl)
    as Hrun.
  eexists. eexists. split; [exact Hrun|]. split; [reflexivity|].
  cbn [snapshot_of metrics_of last_close].
  split; [vm_compute; reflexivity|].
  split; [vm_compute; reflexivity|].
  split; [vm_compute; reflexivity|].
  split; [vm_compute; reflexivity|].
  split; [vm_compute; discriminate|].
  vm_compute. reflexivity.
Qed.

(** C9, amended.  In every snapshot written, [last_close], [rsi2] and
    [sma200] are each a result of the same [round(., 2)], and so a number
    with 2 decimal places (the binary64 number nearest to a whole number of
    hundredths), NaN or an infinity; the written [last_close] is
    [round(close.iloc[-1], 2)].  On a number [x], [round(x, 2)] takes the
    product [x * 100] rounded to binary64, rounds it to an integer [k] with
    ties to even, and returns the binary64 number nearest to [k / 100].
    This is [x] rounded half to even to 2 decimals whenever the product
    [x * 100] is exact in binary64. *)
Theorem metrics_are_results_of_round_2
  (e : env) (w w1 : world) (p : payload) :
  run e w = (Ok tt, w1) -> disk w1 = Some (Snapshot p) ->
  (exists close c,
      feed e = Frame close /\
      Series.iloc close (-1) = Some c /\
      last_close (metrics_of p) = Float.round c 2) /\
  (exists r, rsi2 (metrics_of p) = Float.round r 2) /\
  (exists m, sma200 (metrics_of p) = Float.round m 2) /\
  Spec.two_decimals (last_close (metrics_of p)) /\
  Spec.two_decimals (rsi2 (metrics_of p)) /\
  Spec.two_decimals (sma200 (metrics_of p)) /\
  (forall q v,
      Float.round (Fin q) 2 = Fin v ->
      exists y k,
        Float.fl (q * 100) = Fin y /\
        k = Float.rint y /\
        Float.fl (inject_Z k / 100) = Fin v /\
        Qabs (y - inject_Z k) <= 1 # 2 /\
        (Qabs (y - inject_Z k) == 1 # 2 -> Z.even k = true)) /\
  (forall q y,
      Float.fl (q * 100) = Fin y -> y == q * 100 ->
      Float.round (Fin q) 2 = Float.fl (Spec.half_even_2dp q)).
Proof.
  intros H Hd.
  destruct (feed e) as [|close] eqn:Hf;
    [rewrite run_unfold, Hf in H; discriminate|].
  destruct (run_ok_inv e w w1 close Hf H) as (Hl & _ & _ & Hs).
  rewrite Hs in Hd. inversion Hd; subst p. clear Hd.
  cbn [snapshot_of last_close rsi2 sma200 metrics_of].
  split.
  { exists close, (from_end close 1).
    split; [reflexivity|]. split; [|reflexivity].
    apply (iloc_from_end close 1). lia. }
  split; [eexists; reflexivity|]. split; [eexists; reflexivity|].
  split; [apply round_2_two_decimals|].
  split; [apply round_2_two_decimals|].
  split; [apply round_2_two_decimals|].
  split; [exact round_2_fin|exact round_2_exact_product].
Qed.

Lemma metrics_are_results_of_round_2_witness :
  exists p w1 close c,
    run (env_of near_thirty) no_file = (Ok tt, w1) /\
    disk w1 = Some (Snapshot p) /\
    feed (env_of near_thirty) = Frame close /\
    Series.iloc close (-1) = Some c /\
    last_close (metrics_of p) = Float.round c 2 /\
    Spec.two_decimals (last_close (metrics_of p)) /\
    Spec.two_decimals (rsi2 (metrics_of p)) /\
    Spec.two_decimals (sma200 (metrics_of p)).
Proof.
  pose proof (run_ok (env_of near_thirty) no_file (prices near_thirty)
                eq_refl ltac:(apply Nat.leb_le; reflexivity) eq_refl eq_refl)
    as Hrun.
  destruct (metrics_are_results_of_round_2 _ _ _ _ Hrun eq_refl)
    as ((close & c & Hf & Hc & Hlc) & _ & _ & T1 & T2 & T3 & _).
  eexists. eexists. exists close, c.
  split; [exact Hrun|]. split; [reflexivity|].
  split; [exact Hf|]. split; [exact Hc|]. split; [exact Hlc|].
  split; [exact T1|]. split; [exact T2|exact T3].
Defined.

(** ** C10: the accesses behind the length check *)




(** ** C1: the RSI where the smoothed loss is zero *)

(** C1.  What [calc_rsi] does where the claim expects 100.  On a price
    series, at every position from the third on where the smoothed loss is
    zero, the period-2 RSI is 0; and for a strictly increasing series of at
    least 3 closes the period-2 RSI at the last position is 0, not 100:
    [avg_loss.replace(0, inf)] makes the divisor infinite, so [rs] is 0
    there and [100 - 100 / (1 + 0)] is 0. *)
Theorem rsi_is_zero_where_loss_is_zero (ps : list Q) :
  (3 <= length ps)%nat ->
  exists rsi,
    calc_rsi (prices ps) 2 = Ok rsi /\
    (forall i l,
        (2 <= i < length ps)%nat ->
        nth i (avg_loss (prices ps) 2) NaN = Fin l -> l == 0 ->
        exists r, nth i rsi NaN = Fin r /\ r == 0 /\ ~ r == 100) /\
    (Forall (fun d => 0 < d) (Spec.diffs ps) ->
     exists r, Series.iloc rsi (-1) = Some (Fin r) /\ r == 0 /\ ~ r == 100).
Proof.
  intro Hlen. exists (rsi_series (prices ps)). split; [reflexivity|].
  destruct ps as [|p rest]; [simpl in Hlen; lia|]. simpl in Hlen.
  assert (Hzero : forall j,
             (1 <= j < length rest)%nat ->
             nth j (ewm_q (1 / inject_Z 2)
                      (map loss_q (Spec.diffs_from p rest))) 0 == 0 ->
             exists r, nth (S j) (rsi_series (prices (p :: rest))) NaN = Fin r
                       /\ r == 0 /\ ~ r == 100).
  { intros j Hj Hl0. rewrite rsi_nth_prices by exact Hj.
    rewrite rsi_point_zero_loss by exact Hl0.
    eexists. split; [reflexivity|]. split; [reflexivity|]. discriminate. }
  split.
  - intros i l Hi Hnth Hl0. destruct i as [|j]; [lia|]. simpl in Hi.
    apply Hzero; [lia|].
    rewrite avg_loss_prices in Hnth. cbn [nth] in Hnth.
    rewrite nth_masked in Hnth;
      [|rewrite length_ewm_q, length_map, length_diffs_from; lia|simpl; lia].
    inversion Hnth; subst. exact Hl0.
  - intro Hup. cbn [Spec.diffs] in Hup.
    destruct (Hzero (length rest - 1)%nat ltac:(lia)) as (r & Hr & H0 & H100).
    + apply (proj1 (Forall_nth (fun x => x == 0) _));
        [|rewrite length_ewm_q, length_map, length_diffs_from; lia].
      apply ewm_q_zero, Forall_map.
      eapply Forall_impl; [|exact Hup].
      intros d Hd. unfold loss_q.
      apply Qltb_lt in Hd. rewrite Hd. reflexivity.
    + exists r. split; [|split; assumption].
      rewrite <- Hr.
      replace (S (length rest - 1)) with (length (rsi_series (prices (p :: rest))) - 1)%nat
        by (rewrite length_rsi_series; unfold prices; rewrite length_map;
            simpl; lia).
      apply (iloc_from_end _ 1).
      rewrite length_rsi_series. unfold prices. rewrite length_map. simpl. lia.
Qed.

Lemma rsi_is_zero_where_loss_is_zero_witness :
  calc_rsi (prices rising) 2 = Ok [NaN; NaN; Fin 0] /\
  exists rsi,
    calc_rsi (prices rising) 2 = Ok rsi /\
    (forall i l,
        (2 <= i < length rising)%nat ->
        nth i (avg_loss (prices rising) 2) NaN = Fin l -> l == 0 ->
        exists r, nth i rsi NaN = Fin r /\ r == 0 /\ ~ r == 100) /\
    (Forall (fun d => 0 < d) (Spec.diffs rising) ->
     exists r, Series.iloc rsi (-1) = Some (Fin r) /\ r == 0 /\ ~ r == 100).
Proof.
  split; [vm_compute; reflexivity|].
  apply (rsi_is_zero_where_loss_is_zero rising).
  simpl. lia.
Defined.

(** * Further properties of the program *)

(** ** Supporting facts *)

Lemma alpha_is_weight (P : Z) : (1 <= P)%Z -> 0 <= 1 / inject_Z P <= 1.
Proof.
  intro H. destruct P as [|p|p]; try lia.
  split; unfold Qle; simpl; lia.
Qed.

Lemma calc_rsi_ok (series : Series) (P : Z) :
  (1 <= P)%Z -> calc_rsi series P = Ok (map rsi_of_rs (rs series P)).
Proof.
  intro H. unfold calc_rsi.
  assert ((P =? 0)%Z = false) as -> by (apply Z.eqb_neq; lia).
  assert ((P <? 0)%Z = false) as -> by (apply Z.ltb_ge; lia).
  reflexivity.
Qed.

Lemma nth_error_zip_with f (a b : Series) (i : nat) (x y : float) :
  nth_error a i = Some x -> nth_error b i = Some y ->
  nth_error (Series.zip_with f a b) i = Some (f x y).
Proof.
  revert b i. induction a as [|u a IH]; intros [|v b] [|i]; simpl;
    try discriminate.
  - intros Hx Hy. inversion Hx; inversion Hy; subst. reflexivity.
  - apply IH.
Qed.

Lemma rsi_values_nth_error (series : Series) (P : Z) (i : nat) (g l : float) :
  nth_error (avg_gain series P) i = Some g ->
  nth_error (avg_loss series P) i = Some l ->
  nth_error (map rsi_of_rs (rs series P)) i = Some (rsi_point g l).
Proof.
  intros Hg Hl. unfold rs, Series.div, Series.replace, rsi_point.
  rewrite nth_error_map.
  rewrite (nth_error_zip_with Float.div _ _ i g
             (if Float.eqb l (Fin 0) then PInf else l)).
  - reflexivity.
  - exact Hg.
  - rewrite nth_error_map, Hl. reflexivity.
Qed.

Lemma nth_error_masked (minp n j : nat) (l : list Q) :
  (j < length l)%nat ->
  nth_error (masked minp n l) j
  = Some (if (minp <=? S (n + j))%nat then Fin (nth j l 0) else NaN).
Proof.
  revert n j. induction l as [|q rest IH]; intros n j Hj; simpl in Hj; [lia|].
  destruct j as [|j]; simpl.
  - now rewrite Nat.add_0_r.
  - rewrite IH by lia. now rewrite Nat.add_succ_r.
Qed.

Lemma rsi_point_value (g l : Q) :
  0 <= g -> 0 <= l ->
  exists r,
    rsi_point (Fin g) (Fin l) = Fin r /\
    (l == 0 -> r == 0) /\
    (0 < l -> r == 100 * g / (g + l)) /\
    0 <= r < 100.
Proof.
  intros Hg Hl. destruct (Qeq_bool l 0) eqn:E.
  - apply Qeq_bool_iff in E. eexists.
    split; [now apply rsi_point_zero_loss|].
    assert (100 + - (100 / (1 + 0)) == 0) as E0 by reflexivity.
    split; [intros _; exact E0|]. split; [intro; lra|]. rewrite E0. lra.
  - assert (~ l == 0) as Hn.
    { intro H. apply Qeq_bool_iff in H. congruence. }
    assert (0 < l) as Hpos by lra.
    unfold rsi_point. simpl Float.eqb. rewrite E.
    rewrite div_fin by exact Hn.
    unfold rsi_of_rs. simpl Float.add.
    assert (0 <= g / l) as Hq by (apply Qle_shift_div_l; lra).
    rewrite div_fin by lra.
    eexists. split; [reflexivity|].
    assert (100 + - (100 / (1 + g / l)) == 100 * g / (g + l)) as Ef.
    { field. split; lra. }
    split; [intro; lra|]. split; [intros _; exact Ef|].
    rewrite Ef. split.
    + apply Qle_shift_div_l; lra.
    + apply Qlt_shift_div_r; lra.
Qed.

Lemma nobs_step_le (alpha : Q) (st : Series.ewm_acc) (cur : float) :
  (Series.nobs (Series.ewm_step alpha st cur) <= S (Series.nobs st))%nat.
Proof.
  unfold Series.ewm_step.
  destruct (Float.is_nan (Series.weighted st));
    destruct (Float.is_nan cur); simpl; lia.
Qed.

Lemma ewm_loop_nan_prefix (alpha : Q) (minp : nat) (vals : Series) :
  forall (st : Series.ewm_acc) (j : nat),
    (j < length vals)%nat -> (Series.nobs st + S j < minp)%nat ->
    nth_error (Series.ewm_loop alpha minp st vals) j = Some NaN.
Proof.
  induction vals as [|cur rest IH]; intros st j Hj Hm; simpl in Hj; [lia|].
  pose proof (nobs_step_le alpha st cur) as Hn.
  destruct j as [|j]; cbn [Series.ewm_loop nth_error].
  - unfold Series.ewm_emit.
    assert ((minp <=? Series.nobs (Series.ewm_step alpha st cur))%nat = false)
      as -> by (apply Nat.leb_gt; lia).
    reflexivity.
  - apply IH; lia.
Qed.

Lemma ewm_mean_nan_prefix (alpha : Q) (minp : nat) (rest : Series) (i : nat) :
  (i < S (length rest))%nat -> (i < minp)%nat ->
  nth_error (Series.ewm_mean alpha minp (NaN :: rest)) i = Some NaN.
Proof.
  intros Hi Hm. unfold Series.ewm_mean. cbn [map Series.inf_to_nan]. cbv zeta.
  destruct i as [|j]; cbn [nth_error].
  - unfold Series.ewm_emit, Series.ewm_init. simpl.
    destruct (Nat.max minp 1) eqn:E; [lia|reflexivity].
  - apply ewm_loop_nan_prefix; [rewrite length_map; lia|]. simpl. lia.
Qed.

Lemma gain_head (x : float) (rest : Series) :
  exists tl, gain (x :: rest) = NaN :: tl /\ length tl = length rest.
Proof.
  unfold gain, delta, Series.clip_lower. simpl. eexists.
  split; [reflexivity|]. now rewrite length_map, length_diff_from.
Qed.

Lemma loss_head (x : float) (rest : Series) :
  exists tl, loss (x :: rest) = NaN :: tl /\ length tl = length rest.
Proof.
  unfold loss, delta, Series.neg, Series.clip_upper. simpl. eexists.
  split; [reflexivity|]. now rewrite !length_map, length_diff_from.
Qed.

Lemma rsi_point_nan (l : float) : rsi_point NaN l = NaN.
Proof. reflexivity. Qed.

(** The smoothed averages and the RSI at a position of a price series where
    they are defined. *)
Lemma rsi_at_position (ps : list Q) (P : Z) (i : nat) :
  (1 <= P)%Z -> (Z.to_nat P <= i < length ps)%nat ->
  let g := nth (i - 1) (ewm_q (1 / inject_Z P)
                          (map gain_q (Spec.diffs ps))) 0 in
  let l := nth (i - 1) (ewm_q (1 / inject_Z P)
                          (map loss_q (Spec.diffs ps))) 0 in
  nth_error (avg_gain (prices ps) P) i = Some (Fin g) /\
  nth_error (avg_loss (prices ps) P) i = Some (Fin l) /\
  0 <= g /\ 0 <= l /\
  exists r,
    nth_error (map rsi_of_rs (rs (prices ps) P)) i = Some (Fin r) /\
    (l == 0 -> r == 0) /\
    (0 < l -> r == 100 * g / (g + l)) /\
    0 <= r < 100.
Proof.
  intros HP Hi g l.
  destruct ps as [|p rest]; [simpl in Hi; lia|]. simpl in Hi.
  destruct i as [|j]; [lia|].
  cbn [Spec.diffs] in g, l.
  assert (Hj : (j < length rest)%nat) by lia.
  assert (Hg : nth_error (avg_gain (prices (p :: rest)) P) (S j) = Some (Fin g)).
  { rewrite avg_gain_prices. cbn [nth_error].
    rewrite nth_error_masked
      by (now rewrite length_ewm_q, length_map, length_diffs_from).
    assert ((Nat.max (Z.to_nat P) 1 <=? S (0 + j))%nat = true) as ->
        by (apply Nat.leb_le; lia).
    unfold g. now replace (S j - 1)%nat with j by lia. }
  assert (Hl : nth_error (avg_loss (prices (p :: rest)) P) (S j) = Some (Fin l)).
  { rewrite avg_loss_prices. cbn [nth_error].
    rewrite nth_error_masked
      by (now rewrite length_ewm_q, length_map, length_diffs_from).
    assert ((Nat.max (Z.to_nat P) 1 <=? S (0 + j))%nat = true) as ->
        by (apply Nat.leb_le; lia).
    unfold l. now replace (S j - 1)%nat with j by lia. }
  assert (Hg0 : 0 <= g).
  { unfold g. replace (S j - 1)%nat with j by lia.
    apply (proj1 (Forall_nth (fun x => 0 <= x) _));
      [|now rewrite length_ewm_q, length_map, length_diffs_from].
    apply ewm_q_nonneg; [now apply alpha_is_weight|].
    apply Forall_map, Forall_forall. intros; apply gain_q_nonneg. }
  assert (Hl0 : 0 <= l).
  { unfold l. replace (S j - 1)%nat with j by lia.
    apply (proj1 (Forall_nth (fun x => 0 <= x) _));
      [|now rewrite length_ewm_q, length_map, length_diffs_from].
    apply ewm_q_nonneg; [now apply alpha_is_weight|].
    apply Forall_map, Forall_forall. intros; apply loss_q_nonneg. }
  split; [exact Hg|]. split; [exact Hl|]. split; [exact Hg0|].
  split; [exact Hl0|].
  destruct (rsi_point_value g l Hg0 Hl0) as (r & Hr & H1 & H2 & H3).
  exists r. split; [|auto].
  rewrite (rsi_values_nth_error _ _ _ _ _ Hg Hl). now rewrite Hr.
Qed.

(** ** [calc_rsi]: errors, shape and values *)

(** X1.  [calc_rsi] raises [ZeroDivisionError] for period 0 and pandas'
    [ValueError] for a negative period.  For a period [P >= 1] it returns,
    for any series (NaN and infinite entries included), a series of the
    same length whose first [P] positions are NaN. *)
Theorem calc_rsi_shape (series : Series) (P : Z) :
  (P = 0%Z -> calc_rsi series P = Raise ZeroDivisionError) /\
  ((P < 0)%Z -> calc_rsi series P = Raise ValueError_alpha) /\
  ((1 <= P)%Z ->
     exists rsi,
       calc_rsi series P = Ok rsi /\
       length rsi = length series /\
       forall i, (i < length series)%nat -> (i < Z.to_nat P)%nat ->
                 nth_error rsi i = Some NaN).
Proof.
  split; [|split].
  - intros ->. reflexivity.
  - intro H. unfold calc_rsi.
    assert ((P =? 0)%Z = false) as -> by (apply Z.eqb_neq; lia).
    assert ((P <? 0)%Z = true) as -> by (apply Z.ltb_lt; lia).
    reflexivity.
  - intro HP. exists (map rsi_of_rs (rs series P)).
    split; [now apply calc_rsi_ok|].
    split; [now rewrite length_map, length_rs|].
    intros i Hi HiP.
    destruct series as [|x rest]; [simpl in Hi; lia|]. simpl in Hi.
    destruct (gain_head x rest) as (gt & Eg & Lg).
    destruct (loss_head x rest) as (lt & El & Ll).
    assert (Hg : nth_error (avg_gain (x :: rest) P) i = Some NaN).
    { unfold avg_gain. rewrite Eg. apply ewm_mean_nan_prefix; lia. }
    assert (Hl : nth_error (avg_loss (x :: rest) P) i = Some NaN).
    { unfold avg_loss. rewrite El. apply ewm_mean_nan_prefix; lia. }
    rewrite (rsi_values_nth_error _ _ _ _ _ Hg Hl). reflexivity.
Qed.

Lemma calc_rsi_shape_witness :
  exists rsi,
    calc_rsi (prices zigzag ++ [NaN; PInf]) 3 = Ok rsi /\
    length rsi = 7%nat /\
    nth_error rsi 0 = Some NaN /\
    nth_error rsi 1 = Some NaN /\
    nth_error rsi 2 = Some NaN.
Proof.
  destruct (calc_rsi_shape (prices zigzag ++ [NaN; PInf]) 3)
    as (_ & _ & H).
  destruct (H ltac:(lia)) as (rsi & Hr & Hlen & Hnan).
  exists rsi. split; [exact Hr|]. split; [exact Hlen|].
  split; [|split]; apply Hnan; simpl; lia.
Defined.

(** X2.  On a price series whose prices are at most [2^1022] in absolute
    value (so that no day-over-day difference overflows in binary64), with
    a period [P >= 1], every position from [P] on holds a number between 0
    and 100, bounds included. *)
Theorem rsi_in_range (ps : list Q) (P : Z) (i : nat) :
  Forall (fun x => Qabs x <= inject_Z (2 ^ 1022)) ps ->
  (1 <= P)%Z -> (Z.to_nat P <= i < length ps)%nat ->
  exists rsi r,
    calc_rsi (prices ps) P = Ok rsi /\
    nth_error rsi i = Some (Fin r) /\
    0 <= r <= 100.
Proof.
  intros _ HP Hi.
  destruct (rsi_at_position ps P i HP Hi)
    as (_ & _ & _ & _ & r & Hr & _ & _ & Hrange).
  exists (map rsi_of_rs (rs (prices ps) P)), r.
  split; [now apply calc_rsi_ok|]. split; [assumption|].
  split; [apply Hrange|apply Qlt_le_weak, Hrange].
Qed.

Lemma rsi_in_range_witness :
  exists rsi r,
    calc_rsi (prices zigzag) 2 = Ok rsi /\
    nth_error rsi 4 = Some (Fin r) /\
    0 <= r <= 100.
Proof.
  apply (rsi_in_range zigzag 2 4).
  - repeat constructor; vm_compute; discriminate.
  - lia.
  - simpl. lia.
Defined.



(** ** [fetch_spy_news] *)

(** X5.  [fetch_spy_news] never raises, whatever the news feed answers: it
    asks the feed once, leaves the output file alone, and returns the title
    of the first item when that item is a dict whose ["content"] is a dict
    with a ["title"]; in every other case (the feed raises, no items, an
    item or a content that is no dict, a missing content or title) it
    returns the empty string.  Items after the first are not looked at. *)
Theorem fetch_spy_news_never_raises (e : env) (w : world) :
  exists title,
    fetch_spy_news e w
    = (Ok title, {| disk := disk w; log := log w ++ [EvNews] |}) /\
    (forall t more,
        headlines e = NewsValue (ItemDict (Some (ContentDict (Some t))) :: more) ->
        title = t) /\
    ((forall t more,
         headlines e <> NewsValue (ItemDict (Some (ContentDict (Some t))) :: more)) ->
     title = EmptyString).
Proof.
  exists (headline_of (headlines e)).
  split; [apply fetch_spy_news_value|]. split.
  - intros t more ->. reflexivity.
  - intro H. destruct (headlines e) as [|[|[[[[t|]|]|]|] items]];
      try reflexivity.
    exfalso. apply (H t items). reflexivity.
Qed.

Lemma fetch_spy_news_never_raises_witness :
  fetch_spy_news
    (with_headlines (env_of rising)
       (NewsValue [headline_item "First"; ItemOther; headline_item "Third"]))
    no_file
  = (Ok "First"%string, {| disk := None; log := [EvNews] |})
  /\ fetch_spy_news
       (with_headlines (env_of rising)
          (NewsValue [ItemDict (Some ContentOther); headline_item "Second"]))
       no_file
     = (Ok EmptyString, {| disk := None; log := [EvNews] |}).
Proof.
  split.
  - destruct (fetch_spy_news_never_raises
                (with_headlines (env_of rising)
                   (NewsValue [headline_item "First"; ItemOther;
                               headline_item "Third"])) no_file)
      as (title & Hrun & Hfirst & _).
    rewrite Hrun. rewrite (Hfirst "First"%string
                             [ItemOther; headline_item "Third"] eq_refl).
    reflexivity.
  - destruct (fetch_spy_news_never_raises
                (with_headlines (env_of rising)
                   (NewsValue [ItemDict (Some ContentOther);
                               headline_item "Second"])) no_file)
      as (title & Hrun & _ & Hother).
    rewrite Hrun. rewrite Hother; [reflexivity|].
    intros t more H. discriminate H.
Defined.

(** ** [run]: when it succeeds and how it fails *)

(** X6.  [run] returns normally exactly when the download answers with at
    least 210 rows, the output file can be opened and [json.dump] does not
    raise; it has then performed, in this order, the download, one news
    request, one reading of the clock, the open, the write and five prints,
    and the file holds a complete snapshot. *)
Theorem run_succeeds_iff (e : env) (w : world) :
  ((exists w1, run e w = (Ok tt, w1)) <->
   (exists close,
       feed e = Frame close /\ (210 <= length close)%nat /\
       open_ok e = true /\ dump_fault e = None)) /\
  (forall w1,
      run e w = (Ok tt, w1) ->
      (exists p, disk w1 = Some (Snapshot p)) /\
      log w1 = log w ++ [EvDownload; EvNews; EvClock; EvOpen; EvWrite;
                         EvPrint; EvPrint; EvPrint; EvPrint; EvPrint]).
Proof.
  split; [split|].
  - intros [w1 H]. rewrite run_unfold in H.
    destruct (feed e) as [|close] eqn:Hf; [discriminate|].
    exists close.
    destruct (length close <? 210)%nat eqn:Hl; [discriminate|].
    apply Nat.ltb_ge in Hl. rewrite persist_cases in H.
    destruct (open_ok e); [|discriminate].
    destruct (dump_fault e); [discriminate|]. auto.
  - intros (close & Hf & Hl & Ho & Hd). eexists.
    apply (run_ok e w close); assumption.
  - intros w1 H. rewrite run_unfold in H.
    destruct (feed e) as [|close] eqn:Hf; [discriminate|].
    destruct (length close <? 210)%nat eqn:Hl; [discriminate|].
    rewrite persist_cases in H.
    destruct (open_ok e); [|discriminate].
    destruct (dump_fault e); [discriminate|].
    inversion H; subst; simpl. split; [eexists; reflexivity|].
    now rewrite <- app_assoc.
Qed.

Lemma run_succeeds_iff_witness :
  (exists w1, run (env_of falling) with_old_file = (Ok tt, w1)) /\
  ~ (exists w1, run (env_of (firstn 209 falling)) with_old_file = (Ok tt, w1)).
Proof.
  split.
  - apply (proj1 (run_succeeds_iff (env_of falling) with_old_file)).
    exists (prices falling).
    split; [reflexivity|]. split; [apply Nat.leb_le; reflexivity|].
    split; reflexivity.
  - intro H.
    apply (proj1 (run_succeeds_iff (env_of (firstn 209 falling))
                    with_old_file)) in H.
    destruct H as (close & Hf & Hl & _).
    inversion Hf; subst. apply Nat.leb_le in Hl. discriminate Hl.
Defined.

(** X7.  Every exception [run] raises is one of four, each with its cause
    and with what had been done by then: the download error (only the
    download attempted), the not-enough-data error (fewer than 210 rows;
    only the download done), the failure to open the file, and the failure
    of [json.dump] (both after the download, the news request and the
    clock).  [run] never raises because of the news feed, of an index out
    of bounds or of the RSI period, and it prints nothing when it fails. *)
Theorem run_failures (e : env) (w w1 : world) (x : exn) :
  run e w = (Raise x, w1) ->
  (x = DownloadError /\ feed e = DownloadRaises /\
   log w1 = log w ++ [EvDownload]) \/
  (exists close,
      x = ValueError_not_enough_data (length close) /\
      feed e = Frame close /\ (length close < 210)%nat /\
      log w1 = log w ++ [EvDownload]) \/
  (x = OSError_open /\ open_ok e = false /\
   log w1 = log w ++ [EvDownload; EvNews; EvClock; EvOpen]) \/
  (x = DumpError /\ open_ok e = true /\ dump_fault e <> None /\
   log w1 = log w ++ [EvDownload; EvNews; EvClock; EvOpen; EvWrite]).
Proof.
  intro H. rewrite run_unfold in H.
  destruct (feed e) as [|close] eqn:Hf.
  - inversion H; subst. left. auto.
  - destruct (length close <? 210)%nat eqn:Hl.
    + inversion H; subst. right; left. exists close.
      apply Nat.ltb_lt in Hl. auto.
    + rewrite persist_cases in H. destruct (open_ok e) eqn:Ho.
      * destruct (dump_fault e) eqn:Hd; [|discriminate].
        inversion H; subst; simpl. right; right; right.
        split; [reflexivity|]. split; [reflexivity|].
        split; [discriminate|]. now rewrite <- app_assoc.
      * inversion H; subst; simpl. right; right; left.
        split; [reflexivity|]. split; [reflexivity|].
        now rewrite <- app_assoc.
Qed.

Lemma run_failures_witness :
  exists w1,
    run (env_dump_fails falling 25) no_file = (Raise DumpError, w1) /\
    log w1 = [EvDownload; EvNews; EvClock; EvOpen; EvWrite].
Proof.
  eexists. split; [vm_compute; reflexivity|].
  destruct (run_failures (env_dump_fails falling 25) no_file _ DumpError
              ltac:(vm_compute; reflexivity))
    as [(H & _)|[(c & H & _)|[(H & _)|(_ & _ & _ & H)]]];
    try discriminate H.
  exact H.
Defined.

(** ** [run]: what a written snapshot holds *)

(** X8.  In every snapshot [run] writes, for any downloaded column (NaN and
    infinite values included), the flags agree with the metrics stored next
    to them: [rsi_2_below_30] is 1 exactly when the stored [rsi2] is below
    30, [above_sma200] is 1 exactly when the stored [last_close] exceeds the
    stored [sma200], each of the three flags is 0 or 1, the ticker is
    ["SPY"], [updated_at] is the time read from the clock and [news] is what
    [fetch_spy_news] returned. *)
Theorem snapshot_flags_match_metrics (e : env) (w w1 : world) (p : payload) :
  run e w = (Ok tt, w1) -> disk w1 = Some (Snapshot p) ->
  rsi_2_below_30 p = bit (Float.ltb (rsi2 (metrics_of p)) (Fin 30)) /\
  above_sma200 p
  = bit (Float.gtb (last_close (metrics_of p)) (sma200 (metrics_of p))) /\
  (three_lower_closes p = 0%Z \/ three_lower_closes p = 1%Z) /\
  ticker p = "SPY"%string /\
  updated_at p = clock e /\
  fetch_spy_news e w
  = (Ok (news (metrics_of p)), {| disk := disk w; log := log w ++ [EvNews] |}).
Proof.
  intros H Hd. rewrite run_unfold in H.
  destruct (feed e) as [|close] eqn:Hf; [discriminate|].
  destruct (length close <? 210)%nat eqn:Hl; [discriminate|].
  rewrite persist_cases in H.
  destruct (open_ok e); [|discriminate].
  destruct (dump_fault e); [discriminate|].
  inversion H; subst. simpl in Hd. inversion Hd; subst.
  cbn [snapshot_of rsi_2_below_30 above_sma200 three_lower_closes ticker
       updated_at metrics_of rsi2 last_close sma200 news].
  split; [reflexivity|]. split; [reflexivity|].
  split; [|split; [reflexivity|split; [reflexivity|apply fetch_spy_news_value]]].
  destruct (Float.ltb (from_end close 1) (from_end close 2)
            && Float.ltb (from_end close 2) (from_end close 3)); auto.
Qed.

Lemma snapshot_flags_match_metrics_witness :
  exists p w1,
    run (env_of near_thirty) no_file = (Ok tt, w1) /\
    disk w1 = Some (Snapshot p) /\
    rsi_2_below_30 p = bit (Float.ltb (rsi2 (metrics_of p)) (Fin 30)) /\
    above_sma200 p
    = bit (Float.gtb (last_close (metrics_of p)) (sma200 (metrics_of p))).
Proof.
  pose proof (run_ok (env_of near_thirty) no_file (prices near_thirty)
                eq_refl ltac:(apply Nat.leb_le; reflexivity) eq_refl eq_refl)
    as Hrun.
  eexists. eexists. split; [exact Hrun|]. split; [reflexivity|].
  destruct (snapshot_flags_match_metrics _ _ _ _ Hrun eq_refl)
    as (H1 & H2 & _).
  split; assumption.
Defined.

(** X9.  A successful run overwrites: the snapshot it leaves depends on the
    answers of the collaborators only, not on what the file held before.
    Whenever [run] succeeds from one state of the file, it succeeds from any
    other with the same answers and leaves the same file; in particular a
    second run with the same answers leaves the file as the first did. *)
Theorem run_overwrites (e : env) (w w1 w' : world) :
  run e w = (Ok tt, w1) ->
  exists w2, run e w' = (Ok tt, w2) /\ disk w2 = disk w1.
Proof.
  intro H. rewrite run_unfold in H. rewrite run_unfold.
  destruct (feed e) as [|close] eqn:Hf; [discriminate|].
  destruct (length close <? 210)%nat eqn:Hl; [discriminate|].
  rewrite persist_cases in H. rewrite persist_cases.
  destruct (open_ok e); [|discriminate].
  destruct (dump_fault e); [discriminate|].
  inversion H; subst. eexists. split; reflexivity.
Qed.

Lemma run_overwrites_witness :
  exists w2,
    run (env_of falling) with_old_file = (Ok tt, w2) /\
    disk w2 = disk (snd (run (env_of falling) no_file)).
Proof.
  apply (run_overwrites (env_of falling) no_file).
  apply (run_ok (env_of falling) no_file (prices falling)).
  - reflexivity.
  - apply Nat.leb_le. reflexivity.
  - reflexivity.
  - reflexivity.
Defined.

(** ** The rolling mean *)



(** ** Missing values are not checked *)

Lemma iloc_last_app (close : Series) (x : float) :
  Series.iloc close (-1) = Some x -> exists pre, close = pre ++ [x].
Proof.
  intro H. destruct close as [|c rest]; [discriminate H|].
  destruct (@exists_last _ (c :: rest)) as (pre & a & E); [discriminate|].
  rewrite E in H. exists pre. rewrite E.
  pose proof (iloc_from_end (pre ++ [a]) 1) as Hi.
  change (- Z.of_nat 1)%Z with (-1)%Z in Hi.
  rewrite Hi in H by (rewrite length_app; simpl; lia).
  rewrite from_end_app_1 in H. now inversion H.
Qed.

Lemma window_mean_gap (n : nat) (pre : Series) :
  (1 <= n)%nat ->
  Series.window_mean n (Series.last_n n (pre ++ [NaN])) = NaN.
Proof.
  intro Hn. unfold Series.window_mean, Series.last_n.
  rewrite length_app. simpl length. rewrite skipn_app.
  replace (length pre + 1 - n - length pre)%nat with 0%nat by lia.
  cbn [skipn]. rewrite filter_app. simpl filter. rewrite app_nil_r.
  pose proof (filter_length_le Float.is_finite
                (skipn (length pre + 1 - n) pre)) as Hle.
  rewrite length_skipn in Hle.
  assert ((n <=? length (filter Float.is_finite
                           (skipn (length pre + 1 - n) pre)))%nat = false)
    as -> by (apply Nat.leb_gt; lia).
  reflexivity.
Qed.

(** X11.  [run] does not validate the values it downloads.  When the frame
    has at least 210 rows and its latest close is missing (NaN), the run
    still succeeds and writes a snapshot whose [last_close] and [sma200] are
    NaN and whose [above_sma200] and [three_lower_closes] flags are 0. *)
Theorem missing_last_close_is_written (e : env) (w : world) (close : Series) :
  feed e = Frame close -> (210 <= length close)%nat ->
  open_ok e = true -> dump_fault e = None ->
  Series.iloc close (-1) = Some NaN ->
  exists p w1,
    run e w = (Ok tt, w1) /\
    disk w1 = Some (Snapshot p) /\
    last_close (metrics_of p) = NaN /\
    sma200 (metrics_of p) = NaN /\
    above_sma200 p = 0%Z /\
    three_lower_closes p = 0%Z.
Proof.
  intros Hf Hl Ho Hd Hlast.
  destruct (iloc_last_app close NaN Hlast) as (pre & E).
  eexists. eexists.
  split; [apply (run_ok e w close); assumption|].
  split; [reflexivity|].
  cbn [snapshot_of last_close sma200 above_sma200 three_lower_closes
       metrics_of].
  assert (H1 : from_end close 1 = NaN) by (rewrite E; apply from_end_app_1).
  assert (Hs : from_end (Series.rolling_mean 200 close) 1 = NaN).
  { rewrite rolling_mean_last
      by (rewrite E; destruct pre; discriminate).
    rewrite E. apply window_mean_gap. lia. }
  rewrite H1, Hs. repeat split; reflexivity.
Qed.

Lemma missing_last_close_is_written_witness :
  exists p w1,
    run (env_of_frame frame_with_gap) no_file = (Ok tt, w1) /\
    disk w1 = Some (Snapshot p) /\
    last_close (metrics_of p) = NaN /\
    sma200 (metrics_of p) = NaN /\
    above_sma200 p = 0%Z /\
    three_lower_closes p = 0%Z.
Proof.
  apply (missing_last_close_is_written
           (env_of_frame frame_with_gap) no_file frame_with_gap).
  - reflexivity.
  - apply Nat.leb_le. reflexivity.
  - reflexivity.
  - reflexivity.
  - reflexivity.
Defined.

(** ** The RSI flag on one-way markets *)

Lemma smoothed_zero (alpha : Q) (f : Q -> Q) (ds : list Q) (j : nat) :
  Forall (fun d => f d == 0) ds ->
  nth j (ewm_q alpha (map f ds)) 0 == 0.
Proof.
  intro H.
  destruct (Nat.lt_ge_cases j (length (ewm_q alpha (map f ds)))) as [Hj|Hj].
  - apply (proj1 (Forall_nth (fun x => x == 0) _)); [|exact Hj].
    apply ewm_q_zero, Forall_map. exact H.
  - rewrite nth_overflow by exact Hj. reflexivity.
Qed.

(** X13.  On a price series of at least 210 closes that only rises (every
    close above the previous one) or never rises (no close above the
    previous one), the snapshot written has [rsi2] equal to 0 and
    [rsi_2_below_30] equal to 1: the flag is raised on an unbroken rally as
    it is on an unbroken decline. *)
Theorem one_way_market_raises_rsi_flag (ps : list Q) (e : env) (w : world) :
  feed e = Frame (prices ps) -> (210 <= length ps)%nat ->
  open_ok e = true -> dump_fault e = None ->
  Forall (fun d => 0 < d) (Spec.diffs ps) \/
  Forall (fun d => d <= 0) (Spec.diffs ps) ->
  exists p w1 r,
    run e w = (Ok tt, w1) /\
    disk w1 = Some (Snapshot p) /\
    rsi2 (metrics_of p) = Fin r /\ r == 0 /\
    rsi_2_below_30 p = 1%Z.
Proof.
  intros Hf Hl Ho Hd Hway.
  assert (Hlen : length (prices ps) = length ps) by apply length_map.
  set (i := (length ps - 1)%nat).
  destruct (rsi_at_position ps 2 i ltac:(lia) ltac:(unfold i; simpl; lia))
    as (_ & _ & _ & Hl0 & r & Hr & Hz & Hfm & _).
  assert (Er : r == 0).
  { destruct Hway as [Hup|Hdown].
    - apply Hz. apply smoothed_zero.
      eapply Forall_impl; [|exact Hup].
      intros d Hd0. cbv beta in Hd0. unfold loss_q.
      apply Qltb_lt in Hd0. rewrite Hd0. reflexivity.
    - set (l := nth (i - 1) (ewm_q (1 / inject_Z 2)
                               (map loss_q (Spec.diffs ps))) 0) in *.
      destruct (Qeq_dec l 0) as [E|NE]; [auto|].
      assert (0 < l) as Hpos by lra. rewrite (Hfm Hpos).
      assert (nth (i - 1) (ewm_q (1 / inject_Z 2)
                             (map gain_q (Spec.diffs ps))) 0 == 0) as Eg.
      { apply smoothed_zero.
        eapply Forall_impl; [|exact Hdown].
        intros d Hd0. cbv beta in Hd0. unfold gain_q.
        destruct (Float.Qltb d 0) eqn:E; [reflexivity|].
        apply Qltb_ge in E. lra. }
      unfold Qdiv. rewrite Eg. ring. }
  assert (Hlast : from_end (rsi_series (prices ps)) 1 = Fin r).
  { unfold from_end. rewrite length_rsi_series, Hlen. fold i.
    apply nth_error_nth. exact Hr. }
  eexists. eexists. exists 0.
  split; [apply (run_ok e w (prices ps)); auto; lia|].
  split; [reflexivity|].
  cbn [snapshot_of rsi2 rsi_2_below_30 metrics_of].
  rewrite Hlast, (round_2_zero r Er).
  split; [reflexivity|]. split; reflexivity.
Qed.

Lemma one_way_market_raises_rsi_flag_witness :
  exists p w1 r,
    run (env_of falling) no_file = (Ok tt, w1) /\
    disk w1 = Some (Snapshot p) /\
    rsi2 (metrics_of p) = Fin r /\ r == 0 /\
    rsi_2_below_30 p = 1%Z.
Proof.
  apply (one_way_market_raises_rsi_flag falling (env_of falling) no_file).
  - reflexivity.
  - apply Nat.leb_le. reflexivity.
  - reflexivity.
  - reflexivity.
  - right. unfold falling, Spec.diffs.
    apply Forall_forall. intros d Hin.
    vm_compute in Hin.
    repeat (destruct Hin as [<-|Hin]; [discriminate|]).
    destruct Hin.
Defined.
